(** * An address book of contact records, verified against its Python source

    The program (inital.py) defines the classes [Field], [Name], [Phone],
    [Record] and [AddressBook].  Python objects are mutable and are handled
    through references, so the embedding keeps an explicit store: Phone,
    Record and AddressBook instances live in heaps indexed by locations, and
    every method is a computation over that store which may print a line,
    raise an exception, or return a value. *)

From Stdlib Require Import String Ascii NArith.
From stdpp Require Import gmap list.

Local Open Scope nat_scope.

(** ** Python strings *)

(** A Python [str] is a sequence of Unicode code points. *)
Abbreviation char := N (only parsing).
Abbreviation str := (list N) (only parsing).

(** An ASCII literal of the source, as a [str]. *)
Definition lit (s : string) : str := N_of_ascii <$> list_ascii_of_string s.

(** [sep.join(parts)]: the parts in order, [sep] between two consecutive
    ones. *)
Fixpoint str_join (sep : str) (parts : list str) : str :=
  match parts with
  | [] => []
  | [x] => x
  | x :: rest => x ++ sep ++ str_join sep rest
  end.

(** ** The part of [re] the program uses *)

(** On a [str] pattern, [\d] matches the characters of Unicode category Nd
    (decimal digits).  That table belongs to the Python runtime, not to the
    program, so it is a parameter of the development. *)
Class UnicodeData : Type := { category_Nd : char → bool }.

(** The decimal digits of Unicode 14.0, as runs [(first, length)]: the ASCII
    digits come first, the Arabic-Indic ones second.  An instance to compute
    with. *)
Definition Nd_runs : list (N * N) :=
  ((λ z, (z, 10%N)) <$>
    [48; 1632; 1776; 1984; 2406; 2534; 2662; 2790; 2918; 3046; 3174; 3302;
     3430; 3558; 3664; 3792; 3872; 4160; 4240; 6112; 6160; 6470; 6608; 6784;
     6800; 6992; 7088; 7232; 7248; 42528; 43216; 43264; 43472; 43504; 43600;
     44016; 65296; 66720; 68912; 69734; 69872; 69942; 70096; 70384; 70736;
     70864; 71248; 71360; 71472; 71904; 72016; 72784; 73040; 73120; 92768;
     92864; 93008; 123200; 123632; 125264; 130032]%N)
  ++ [(120782, 50)]%N.

Definition in_run (c : char) (run : N * N) : bool :=
  (fst run <=? c)%N && (c <? fst run + snd run)%N.

Definition unicode_14 : UnicodeData :=
  {| category_Nd c := existsb (in_run c) Nd_runs |}.

(** The patterns that occur in the source: the class [\d] and the counted
    repetition [r{n}]. *)
Inductive regex : Type :=
  | Digit
  | Repeat (r : regex) (n : nat).

Section Regex.
Context {unicode : UnicodeData}.

(** [match_prefix r s] matches [r] at the start of [s] and returns what is
    left of [s].  Both constructs consume a fixed number of characters, so
    there is nothing to backtrack over. *)
Fixpoint match_prefix (r : regex) (s : str) : option str :=
  match r with
  | Digit =>
      match s with
      | c :: rest => if category_Nd c then Some rest else None
      | [] => None
      end
  | Repeat r' n =>
      (fix times (k : nat) (s : str) : option str :=
         match k with
         | O => Some s
         | S k' =>
             match match_prefix r' s with
             | Some rest => times k' rest
             | None => None
             end
         end) n s
  end.

(** [re.fullmatch(r, s)] is a match object when all of [s] matches and
    [None] otherwise; the program only tests it for truth. *)
Definition fullmatch (r : regex) (s : str) : bool :=
  match match_prefix r s with
  | Some [] => true
  | _ => false
  end.
End Regex.

(** [r'\d{10}'] *)
Definition phone_pattern : regex := Repeat Digit 10.

(** ** Objects and the store *)

(** A location is an index into a heap. *)
Abbreviation loc := nat (only parsing).

(** [Field]: one attribute, [value].  [Name] and [Phone] add a check to the
    constructor and no attribute. *)
Record Field : Type := mkField { value : str }.

(** A [Record] instance.  Its [Name] is created by the constructor, and no
    method assigns [name] again or returns it, so the record holds it by
    value; its [phones] list holds references to Phone instances, which
    [edit_phone] assigns to and [find_phone] returns. *)
Record RecordObj : Type := mkRecord { name : Field; phones : list loc }.

(** The store: the Phone, Record and AddressBook instances created so far (a
    location is an index, allocation appends), and the lines printed so far.
    An AddressBook is its [data] dict. *)
Record state : Type := mkState {
  phone_objs : list Field;
  record_objs : list RecordObj;
  book_objs : list (gmap str loc);
  stdout : list str
}.

Definition init : state := mkState [] [] [] [].

Definition set_phone_objs (f : list Field → list Field) (st : state) : state :=
  mkState (f (phone_objs st)) (record_objs st) (book_objs st) (stdout st).
Definition set_record_objs (f : list RecordObj → list RecordObj) (st : state) : state :=
  mkState (phone_objs st) (f (record_objs st)) (book_objs st) (stdout st).
Definition set_book_objs (f : list (gmap str loc) → list (gmap str loc)) (st : state) : state :=
  mkState (phone_objs st) (record_objs st) (f (book_objs st)) (stdout st).
Definition set_stdout (f : list str → list str) (st : state) : state :=
  mkState (phone_objs st) (record_objs st) (book_objs st) (f (stdout st)).

(** ** Computations *)

Inductive exn : Type :=
  | ValueError (msg : str).

(** [str(e)] *)
Definition exn_str (e : exn) : str :=
  match e with ValueError msg => msg end.

Inductive outcome (A : Type) : Type :=
  | Return (a : A)
  | Raise (e : exn).
Arguments Return {A} a.
Arguments Raise {A} e.

(** A computation returns or raises, in a new store.  [None] stands for the
    use of a location that holds no object, which no Python program can
    do. *)
Definition M (A : Type) : Type := state → option (outcome A * state).

Definition ret {A} (a : A) : M A := λ st, Some (Return a, st).
Definition raise {A} (e : exn) : M A := λ st, Some (Raise e, st).

Definition bind {A B} (m : M A) (k : A → M B) : M B := λ st,
  match m st with
  | Some (Return a, st') => k a st'
  | Some (Raise e, st') => Some (Raise e, st')
  | None => None
  end.

(** [try: body / except ValueError as e: handler(e)].  [ValueError] is the
    only exception of the model. *)
Definition try_except {A} (body : M A) (handler : exn → M A) : M A := λ st,
  match body st with
  | Some (Raise e, st') => handler e st'
  | r => r
  end.

Notation "'do' x <- m ; k" := (bind m (λ x, k))
  (at level 10, x name, m at level 100, k at level 200,
   format "'[v' 'do'  x  <-  m ; '/' k ']'").

Definition print (line : str) : M unit := λ st,
  Some (Return tt, set_stdout (λ out, out ++ [line]) st).

(** Reading and writing the store. *)
Definition alloc_phone (f : Field) : M loc := λ st,
  Some (Return (length (phone_objs st)), set_phone_objs (λ h, h ++ [f]) st).

Definition get_value (p : loc) : M str := λ st,
  match phone_objs st !! p with
  | Some f => Some (Return (value f), st)
  | None => None
  end.

Definition set_value (p : loc) (v : str) : M unit := λ st,
  match phone_objs st !! p with
  | Some _ => Some (Return tt, set_phone_objs (λ h, <[p := mkField v]> h) st)
  | None => None
  end.

Definition alloc_record (r : RecordObj) : M loc := λ st,
  Some (Return (length (record_objs st)), set_record_objs (λ h, h ++ [r]) st).

Definition get_record (r : loc) : M RecordObj := λ st,
  match record_objs st !! r with
  | Some o => Some (Return o, st)
  | None => None
  end.

Definition set_phones (r : loc) (ps : list loc) : M unit := λ st,
  match record_objs st !! r with
  | Some o =>
      Some (Return tt, set_record_objs (λ h, <[r := mkRecord (name o) ps]> h) st)
  | None => None
  end.

Definition alloc_book (data : gmap str loc) : M loc := λ st,
  Some (Return (length (book_objs st)), set_book_objs (λ h, h ++ [data]) st).

Definition get_data (b : loc) : M (gmap str loc) := λ st,
  match book_objs st !! b with
  | Some d => Some (Return d, st)
  | None => None
  end.

Definition set_data (b : loc) (d : gmap str loc) : M unit := λ st,
  match book_objs st !! b with
  | Some _ => Some (Return tt, set_book_objs (λ h, <[b := d]> h) st)
  | None => None
  end.

(** [l.remove(x)]: drops the first item equal to [x]; [Field] defines no
    [__eq__], so Phone instances are compared by identity.  [None] when [x]
    is not in [l] (Python raises [ValueError]). *)
Fixpoint list_remove_first (x : loc) (l : list loc) : option (list loc) :=
  match l with
  | [] => None
  | y :: rest =>
      if decide (y = x) then Some rest
      else (y ::.) <$> list_remove_first x rest
  end.

(** ** class Name, class Phone *)

(** [Name(value)]: [if not value: raise ValueError(...)], and a [str] is
    false when it is empty. *)
Definition Name (value : str) : M Field :=
  match value with
  | [] => raise (ValueError (lit "Name can't be empty"))
  | _ => ret (mkField value)
  end.

Section Phone.
Context {unicode : UnicodeData}.

(** [Phone(phone)]: the check of [Phone.__init__], then [Field.__init__]
    on a new instance.  (Python allocates the instance before [__init__]
    runs; when [__init__] raises, nothing refers to it.) *)
Definition Phone (phone : str) : M loc :=
  if negb (fullmatch phone_pattern phone)
  then raise (ValueError (lit "The phone should contain 10 digits"))
  else alloc_phone (mkField phone).
End Phone.

(** ** class Record *)

(** [Record(name)] *)
Definition Record_ (name : str) : M loc :=
  do n <- Name name;
  alloc_record (mkRecord n []).

Section RecordMethods.
Context {unicode : UnicodeData}.

Definition add_phone (self : loc) (phone : str) : M unit :=
  try_except
    (do new_phone <- Phone phone;
     do o <- get_record self;
     set_phones self (phones o ++ [new_phone]))
    (λ e, print (lit "Couldn't find the phone: " ++ exn_str e)).

(** The three [for phone_obj in self.phones] loops leave the list alone
    until they return, so each runs over the list as it is on entry. *)
Fixpoint remove_phone_loop (self : loc) (todo : list loc) (phone : str) : M bool :=
  match todo with
  | [] =>
      do _ <- print (lit "Phone not found");
      ret false
  | phone_obj :: rest =>
      do v <- get_value phone_obj;
      if decide (v = phone) then
        do o <- get_record self;
        match list_remove_first phone_obj (phones o) with
        | Some ps =>
            do _ <- set_phones self ps;
            ret true
        | None => raise (ValueError (lit "list.remove(x): x not in list"))
        end
      else remove_phone_loop self rest phone
  end.

Definition remove_phone (self : loc) (phone : str) : M bool :=
  do o <- get_record self;
  remove_phone_loop self (phones o) phone.

Fixpoint edit_phone_loop (todo : list loc) (old_phone new_phone : str) : M bool :=
  match todo with
  | [] =>
      do _ <- print (lit "Phone not found");
      ret false
  | phone_obj :: rest =>
      do v <- get_value phone_obj;
      if decide (v = old_phone) then
        try_except
          (do validated_phone <- Phone new_phone;
           do w <- get_value validated_phone;
           do _ <- set_value phone_obj w;
           ret true)
          (λ e,
             do _ <- print (lit "Couldn't find the phone: " ++ exn_str e);
             ret false)
      else edit_phone_loop rest old_phone new_phone
  end.

Definition edit_phone (self : loc) (old_phone new_phone : str) : M bool :=
  do o <- get_record self;
  edit_phone_loop (phones o) old_phone new_phone.
End RecordMethods.

(** [find_phone] returns the Phone instance itself, or Python's [None]. *)
Fixpoint find_phone_loop (todo : list loc) (phone : str) : M (option loc) :=
  match todo with
  | [] =>
      do _ <- print (lit "Phone not found");
      ret None
  | phone_obj :: rest =>
      do v <- get_value phone_obj;
      if decide (v = phone) then ret (Some phone_obj)
      else find_phone_loop rest phone
  end.

Definition find_phone (self : loc) (phone : str) : M (option loc) :=
  do o <- get_record self;
  find_phone_loop (phones o) phone.

(** [p.value for p in self.phones] *)
Fixpoint phone_values (ps : list loc) : M (list str) :=
  match ps with
  | [] => ret []
  | p :: rest =>
      do v <- get_value p;
      do vs <- phone_values rest;
      ret (v :: vs)
  end.

(** [Record.__str__] *)
Definition Record_str (self : loc) : M str :=
  do o <- get_record self;
  do vs <- phone_values (phones o);
  let phones_str := str_join (lit "; ") vs in
  ret (lit "Contact name: " ++ value (name o) ++ lit ", phones: " ++ phones_str).

(** ** class AddressBook(UserDict) *)

(** The [data] dict is a finite map.  A [gmap] has no insertion order, which
    only [AddressBook.__str__] would show; it is not part of the model. *)
Module AddressBook.

(** [AddressBook()]: [UserDict.__init__] sets [self.data = {}]. *)
Definition new : M loc := alloc_book ∅.

Definition add_record (self : loc) (record : loc) : M unit :=
  do o <- get_record record;
  do data <- get_data self;
  set_data self (<[value (name o) := record]> data).

(** [self.data.get(name)]: the record, or Python's [None]. *)
Definition find (self : loc) (name : str) : M (option loc) :=
  do data <- get_data self;
  ret (data !! name).

Definition delete (self : loc) (name : str) : M unit :=
  do data <- get_data self;
  if decide (is_Some (data !! name))
  then set_data self (base.delete name data)
  else print (lit "Record not found").

End AddressBook.

(** ** Programs over the classes *)

(** One call of a constructor or of a method.  The caller passes the
    references it holds and drops or keeps what comes back. *)
Inductive call : Type :=
  | CallPhone (phone : str)
  | CallRecord (name : str)
  | CallAddPhone (self : loc) (phone : str)
  | CallRemovePhone (self : loc) (phone : str)
  | CallEditPhone (self : loc) (old_phone new_phone : str)
  | CallFindPhone (self : loc) (phone : str)
  | CallRecordStr (self : loc)
  | CallAddressBook
  | CallAddRecord (self record : loc)
  | CallFind (self : loc) (name : str)
  | CallDelete (self : loc) (name : str).

(** The store a computation leaves, whether it returned or raised. *)
Definition store_after {A} (m : M A) (st : state) : option state :=
  snd <$> m st.

Section Exec.
Context {unicode : UnicodeData}.

Definition exec (c : call) : state → option state :=
  match c with
  | CallPhone phone => store_after (Phone phone)
  | CallRecord name => store_after (Record_ name)
  | CallAddPhone self phone => store_after (add_phone self phone)
  | CallRemovePhone self phone => store_after (remove_phone self phone)
  | CallEditPhone self old new => store_after (edit_phone self old new)
  | CallFindPhone self phone => store_after (find_phone self phone)
  | CallRecordStr self => store_after (Record_str self)
  | CallAddressBook => store_after AddressBook.new
  | CallAddRecord self record => store_after (AddressBook.add_record self record)
  | CallFind self name => store_after (AddressBook.find self name)
  | CallDelete self name => store_after (AddressBook.delete self name)
  end.

Fixpoint exec_all (cs : list call) (st : state) : option state :=
  match cs with
  | [] => Some st
  | c :: rest =>
      match exec c st with
      | Some st' => exec_all rest st'
      | None => None
      end
  end.

(** The stores a program can be in: those some sequence of calls builds
    from the empty store. *)
Definition reachable (st : state) : Prop :=
  ∃ cs, exec_all cs init = Some st.
End Exec.

(** ** Vocabulary of the statements *)

Section Vocabulary.
Context {unicode : UnicodeData}.

(** Exactly ten characters, each a decimal digit: the strings [Phone]
    accepts ([Phone_accepts], [Phone_rejects]), said without the
    pattern. *)
Definition ten_digits (s : str) : bool :=
  (length s =? 10) && forallb category_Nd s.

(** The calls [add_phone(c)] for each [c] of [candidates], in order. *)
Fixpoint add_phones (self : loc) (candidates : list str) : M unit :=
  match candidates with
  | [] => ret tt
  | c :: rest =>
      do _ <- add_phone self c;
      add_phones self rest
  end.

(** What the classes maintain: a record's phones are Phone instances of
    the store, no instance twice; every Phone instance holds ten digits;
    a book's keys are the names of the records they map to. *)
Record consistent (st : state) : Prop := {
  phones_live : ∀ r o, record_objs st !! r = Some o →
    Forall (λ p, p < length (phone_objs st)) (phones o);
  phones_distinct : ∀ r o, record_objs st !! r = Some o → NoDup (phones o);
  phones_valid : ∀ p f, phone_objs st !! p = Some f →
    ten_digits (value f) = true;
  keys_named : ∀ b data k r, book_objs st !! b = Some data →
    data !! k = Some r →
    ∃ o, record_objs st !! r = Some o ∧ value (name o) = k
}.

(** The store updates of every method but a successful [edit_phone]:
    none of them assigns to an existing Phone instance. *)
Inductive update (st : state) : state → Prop :=
  | upd_none : update st st
  | upd_print line : update st (set_stdout (λ out, out ++ [line]) st)
  | upd_new_phone s :
      ten_digits s = true →
      update st (set_phone_objs (λ h, h ++ [mkField s]) st)
  | upd_new_record n :
      update st (set_record_objs (λ h, h ++ [mkRecord n []]) st)
  | upd_append self o s :
      record_objs st !! self = Some o → ten_digits s = true →
      update st
        (set_record_objs
           (λ h, <[self := mkRecord (name o)
                             (phones o ++ [length (phone_objs st)])]> h)
           (set_phone_objs (λ h, h ++ [mkField s]) st))
  | upd_remove self o p ps :
      record_objs st !! self = Some o →
      list_remove_first p (phones o) = Some ps →
      update st (set_record_objs (λ h, <[self := mkRecord (name o) ps]> h) st)
  | upd_new_book : update st (set_book_objs (λ h, h ++ [∅]) st)
  | upd_set_data self data data' :
      book_objs st !! self = Some data →
      (∀ k r, data' !! k = Some r →
         data !! k = Some r
         ∨ ∃ o, record_objs st !! r = Some o ∧ value (name o) = k) →
      update st (set_book_objs (λ h, <[self := data']> h) st).

(** The update of a successful [edit_phone]: the instance made to
    validate the new value is allocated, then instance [p] is assigned
    that value. *)
Definition assigned (p : loc) (s : str) (st : state) : state :=
  set_phone_objs (λ h, <[p := mkField s]> (h ++ [mkField s])) st.
End Vocabulary.

(** The values the Phone instances [ps] hold in heap [h], in order; [None]
    when one of them is not in [h]. *)
Fixpoint values_of (h : list Field) (ps : list loc) : option (list str) :=
  match ps with
  | [] => Some []
  | p :: rest =>
      match h !! p, values_of h rest with
      | Some f, Some vs => Some (value f :: vs)
      | _, _ => None
      end
  end.

(** [vs] written as [v1; v2; ...], each value after the first behind a
    separator. *)
Definition separated (sep : str) (vs : list str) : str :=
  match vs with
  | [] => []
  | v :: rest => v ++ concat ((λ w, sep ++ w) <$> rest)
  end.

(** The message both [add_phone] and [edit_phone] print for a rejected
    candidate. *)
Definition rejected_line : str :=
  lit "Couldn't find the phone: The phone should contain 10 digits".

(** ** Which calls raise *)

(** The exception a computation ends with, if it raises. *)
Definition raised {A} (m : M A) (st : state) : option exn :=
  match m st with
  | Some (Raise e, _) => Some e
  | _ => None
  end.

Section Raised.
Context {unicode : UnicodeData}.

Definition exec_raised (c : call) : state → option exn :=
  match c with
  | CallPhone phone => raised (Phone phone)
  | CallRecord name => raised (Record_ name)
  | CallAddPhone self phone => raised (add_phone self phone)
  | CallRemovePhone self phone => raised (remove_phone self phone)
  | CallEditPhone self old new => raised (edit_phone self old new)
  | CallFindPhone self phone => raised (find_phone self phone)
  | CallRecordStr self => raised (Record_str self)
  | CallAddressBook => raised AddressBook.new
  | CallAddRecord self record => raised (AddressBook.add_record self record)
  | CallFind self name => raised (AddressBook.find self name)
  | CallDelete self name => raised (AddressBook.delete self name)
  end.
End Raised.

(** The calls of the AddressBook class. *)
Definition is_book_call (c : call) : bool :=
  match c with
  | CallAddressBook | CallAddRecord _ _ | CallFind _ _ | CallDelete _ _ => true
  | _ => false
  end.

(** The lines the methods print. *)
Definition messages : list str :=
  [lit "Phone not found"; lit "Record not found"; rejected_line].

(** No Phone instance is in the lists of two records. *)
Definition exclusive (st : state) : Prop :=
  ∀ r1 r2 o1 o2 p,
    r1 ≠ r2 →
    record_objs st !! r1 = Some o1 → record_objs st !! r2 = Some o2 →
    p ∈ phones o1 → p ∉ phones o2.

(** ** The dict in insertion order *)

(** A Python dict keeps its keys in the order of their first insertion.
    The store above keeps a book's [data] as a finite map, which is all
    [add_record], [find] and [delete] observe; [AddressBook.__str__] walks
    [data.values()] in order, so for it the dict is the list of its items
    in insertion order. *)
Abbreviation odict := (list (list N * nat)) (only parsing).

(** [d[k] = v]: an existing key keeps its place and gets the new value, a
    new key goes to the end. *)
Fixpoint setitem (k : str) (v : loc) (d : odict) : odict :=
  match d with
  | [] => [(k, v)]
  | (k', v') :: rest =>
      if decide (k' = k) then (k, v) :: rest
      else (k', v') :: setitem k v rest
  end.

(** [d.get(k)] *)
Fixpoint dict_get (k : str) (d : odict) : option loc :=
  match d with
  | [] => None
  | (k', v) :: rest => if decide (k' = k) then Some v else dict_get k rest
  end.

(** [del d[k]], for a key of [d]. *)
Fixpoint delitem (k : str) (d : odict) : odict :=
  match d with
  | [] => []
  | (k', v) :: rest =>
      if decide (k' = k) then rest else (k', v) :: delitem k rest
  end.

(** [str(contact) for contact in records] *)
Fixpoint record_strs (records : list loc) : M (list str) :=
  match records with
  | [] => ret []
  | r :: rest =>
      do line <- Record_str r;
      do lines <- record_strs rest;
      ret (line :: lines)
  end.

(** The one-character string of the source's ['\n']. *)
Definition newline : str := [10%N].

(** The AddressBook methods over the dict in insertion order; the book is
    passed and returned by value. *)
Module OrderedBook.

Definition add_record (data : odict) (record : loc) : M odict :=
  do o <- get_record record;
  ret (setitem (value (name o)) record data).

Definition find (data : odict) (name : str) : M (option loc) :=
  ret (dict_get name data).

Definition delete (data : odict) (name : str) : M odict :=
  if decide (is_Some (dict_get name data))
  then ret (delitem name data)
  else do _ <- print (lit "Record not found"); ret data.

(** [AddressBook.__str__] *)
Definition str_ (data : odict) : M str :=
  do lines <- record_strs (data.*2);
  ret (str_join newline lines).

End OrderedBook.

(** The finite map an ordered dict stands for. *)
Definition dict_map (d : odict) : gmap str loc := list_to_map d.

(** ** Sample stores *)

(** After [john = Record("John")], [john.add_phone("1234567890")],
    [john.add_phone("5555555555")], [book = AddressBook()] and
    [book.add_record(john)]. *)
Definition john_calls : list call :=
  [CallRecord (lit "John"); CallAddPhone 0 (lit "1234567890");
   CallAddPhone 0 (lit "5555555555"); CallAddressBook; CallAddRecord 0 0].

Definition john : RecordObj := mkRecord (mkField (lit "John")) [0; 1].

Definition john_values : list str := [lit "1234567890"; lit "5555555555"].

Definition john_store : state :=
  mkState [mkField (lit "1234567890"); mkField (lit "5555555555")]
          [john]
          [{[lit "John" := 0]}]
          [].

(** [john_store] after [jane = Record("Jane")],
    [jane.add_phone("9876543210")] and [book.add_record(jane)]. *)
Definition jane : RecordObj := mkRecord (mkField (lit "Jane")) [2].

Definition jane_calls : list call :=
  [CallRecord (lit "Jane"); CallAddPhone 1 (lit "9876543210"); CallAddRecord 0 1].

Definition contacts_store : state :=
  mkState [mkField (lit "1234567890"); mkField (lit "5555555555");
           mkField (lit "9876543210")]
          [john; jane]
          [{[lit "John" := 0; lit "Jane" := 1]}]
          [].

(** The items of the book of [contacts_store], in insertion order. *)
Definition contacts_items : odict := [(lit "John", 0); (lit "Jane", 1)].

(** [john_store] after [john.edit_phone("1234567890", "1112223333")]. *)
Definition john_edited : state :=
  mkState [mkField (lit "1112223333"); mkField (lit "5555555555");
           mkField (lit "1112223333")]
          [john]
          [{[lit "John" := 0]}]
          [].

(** * Proofs *)

(** ** Validation *)

Lemma forallb_true_Forall {A} (f : A → bool) (l : list A) :
  forallb f l = true ↔ Forall (λ x, f x = true) l.
Proof.
  induction l as [|x l IH]; simpl.
  - split; [constructor | reflexivity].
  - rewrite andb_true_iff, Forall_cons, IH. reflexivity.
Qed.

Lemma forallb_false_Exists {A} (f : A → bool) (l : list A) :
  forallb f l = false ↔ Exists (λ x, f x = false) l.
Proof.
  induction l as [|x l IH]; simpl.
  - split; [discriminate | intros H; inversion H].
  - rewrite andb_false_iff, Exists_cons, IH. reflexivity.
Qed.

Section Validation.
Context {unicode : UnicodeData}.

Lemma fullmatch_digits (n : nat) (s : str) :
  fullmatch (Repeat Digit n) s = (length s =? n) && forallb category_Nd s.
Proof.
  unfold fullmatch. revert s.
  induction n as [|n IH]; intros [|c rest]; simpl; try reflexivity.
  destruct (category_Nd c); simpl; [apply IH | symmetry; apply andb_false_r].
Qed.

Lemma fullmatch_phone_pattern (s : str) :
  fullmatch phone_pattern s = ten_digits s.
Proof. apply fullmatch_digits. Qed.

Lemma Phone_accepts (s : str) (st : state) :
  ten_digits s = true →
  Phone s st =
    Some (Return (length (phone_objs st)),
          set_phone_objs (λ h, h ++ [mkField s]) st).
Proof.
  intros Hs. unfold Phone. rewrite fullmatch_phone_pattern, Hs. reflexivity.
Qed.

Lemma Phone_rejects (s : str) (st : state) :
  ten_digits s = false →
  Phone s st =
    Some (Raise (ValueError (lit "The phone should contain 10 digits")), st).
Proof.
  intros Hs. unfold Phone. rewrite fullmatch_phone_pattern, Hs. reflexivity.
Qed.

(** C1.  Constructing a Phone from [s] raises [ValueError("The phone
    should contain 10 digits")] exactly when [s] is not ten digit
    characters (its length is not 10 or one of its characters is not a
    digit).  When [s] is ten digits the constructor returns a new
    instance and changes nothing else, and whenever it returns, the
    instance it returns holds [s] as its value. *)
Theorem Phone_validation (s : str) (st : state) :
  (Phone s st =
     Some (Raise (ValueError (lit "The phone should contain 10 digits")), st)
   ↔ (length s ≠ 10 ∨ Exists (λ c, category_Nd c = false) s))
  ∧ ((length s = 10 ∧ Forall (λ c, category_Nd c = true) s)
     ↔ ∃ p st', Phone s st = Some (Return p, st'))
  ∧ (∀ p st', Phone s st = Some (Return p, st') →
       phone_objs st' !! p = Some (mkField s)
       ∧ st' = set_phone_objs (λ h, h ++ [mkField s]) st).
Proof.
  assert (Hten : ten_digits s = true
            ↔ length s = 10 ∧ Forall (λ c, category_Nd c = true) s).
  { unfold ten_digits.
    rewrite andb_true_iff, Nat.eqb_eq, forallb_true_Forall. reflexivity. }
  assert (Hnot : ten_digits s = false
            ↔ length s ≠ 10 ∨ Exists (λ c, category_Nd c = false) s).
  { unfold ten_digits.
    rewrite andb_false_iff, Nat.eqb_neq, forallb_false_Exists. reflexivity. }
  destruct (ten_digits s) eqn:Hs.
  - rewrite (Phone_accepts s st Hs). split; [|split].
    + split; [discriminate|]. intros H. apply Hnot in H. discriminate.
    + split; [eauto|]. intros _. apply Hten. reflexivity.
    + intros p st' [= <- <-]. split; [|reflexivity].
      simpl. apply list_lookup_middle. reflexivity.
  - rewrite (Phone_rejects s st Hs). split; [|split].
    + split; [|reflexivity]. intros _. apply Hnot. reflexivity.
    + split; [|intros (p & st' & [=])]. intros H. apply Hten in H. discriminate.
    + intros p st' [=].
Qed.
End Validation.

(** ** The values a record's phones hold *)

(** Allocation does not disturb the instances that exist. *)
Lemma values_of_alloc (h : list Field) (f : Field) (ps : list loc) (vs : list str) :
  values_of h ps = Some vs → values_of (h ++ [f]) ps = Some vs.
Proof.
  revert vs. induction ps as [|p ps IH]; intros vs; simpl; [trivial|].
  destruct (h !! p) as [g|] eqn:Hp; [|discriminate].
  destruct (values_of h ps) as [ws|]; [|discriminate].
  intros [= <-]. rewrite (lookup_app_l_Some _ _ _ _ Hp), (IH ws); reflexivity.
Qed.

(** Assigning to an instance that is not in the list changes none of the
    values read through the list. *)
Lemma values_of_insert_other (h : list Field) (q : loc) (f : Field) (ps : list loc) :
  q ∉ ps → values_of (<[q := f]> h) ps = values_of h ps.
Proof.
  induction ps as [|p ps IH]; intros Hq; simpl; [reflexivity|].
  apply not_elem_of_cons in Hq as [Hne Hq].
  rewrite list_lookup_insert_ne, IH by auto. reflexivity.
Qed.

(** Assigning to the instance at position [i] of a list without repeated
    instances changes the value at position [i] and no other. *)
Lemma values_of_insert (h : list Field) (ps : list loc) (vs : list str)
    (i : nat) (p : loc) (v : str) :
  NoDup ps → values_of h ps = Some vs → ps !! i = Some p →
  values_of (<[p := mkField v]> h) ps = Some (<[i := v]> vs).
Proof.
  revert vs i. induction ps as [|q ps IH]; intros vs i Hnd; simpl; [discriminate|].
  apply NoDup_cons in Hnd as [Hq Hnd].
  destruct (h !! q) as [f|] eqn:Hhq; [|discriminate].
  destruct (values_of h ps) as [ws|] eqn:Hws; [|discriminate].
  intros [= <-]. destruct i as [|i]; simpl.
  - intros [= <-].
    rewrite list_lookup_insert_eq by (eapply lookup_lt_Some; eauto).
    rewrite values_of_insert_other, Hws by exact Hq. reflexivity.
  - intros Hi.
    assert (q ≠ p) as Hne.
    { intros ->. apply Hq. eapply list_elem_of_lookup_2; eauto. }
    rewrite list_lookup_insert_ne, Hhq by auto.
    rewrite (IH ws i Hnd eq_refl Hi). reflexivity.
Qed.

(** [phone_values] reads what [values_of] describes and leaves the store
    as it is. *)
Lemma phone_values_values_of (ps : list loc) (st : state) :
  phone_values ps st = (λ vs, (Return vs, st)) <$> values_of (phone_objs st) ps.
Proof.
  induction ps as [|p ps IH]; simpl; [reflexivity|].
  unfold bind, get_value.
  destruct (phone_objs st !! p) as [f|]; [|reflexivity].
  rewrite IH. destruct (values_of (phone_objs st) ps); reflexivity.
Qed.

(** ** edit_phone *)

Section EditPhone.
Context {unicode : UnicodeData}.

(** No phone holds [old_phone]: the loop runs to its end. *)
Lemma edit_phone_loop_absent (todo : list loc) (vs : list str)
    (old_phone new_phone : str) (st : state) :
  values_of (phone_objs st) todo = Some vs → old_phone ∉ vs →
  edit_phone_loop todo old_phone new_phone st =
    Some (Return false, set_stdout (λ out, out ++ [lit "Phone not found"]) st).
Proof.
  revert vs. induction todo as [|p todo IH]; intros vs; simpl.
  - reflexivity.
  - unfold bind at 1. unfold get_value.
    destruct (phone_objs st !! p) as [f|]; [|discriminate].
    destruct (values_of (phone_objs st) todo) as [ws|]; [|discriminate].
    intros [= <-] Hnot. apply not_elem_of_cons in Hnot as [Hne Hnot].
    destruct (decide (value f = old_phone)) as [Heq|_]; [congruence|].
    apply (IH ws); [reflexivity | exact Hnot].
Qed.

(** A phone holds [old_phone] and [new_phone] is rejected: the first
    match ends the loop in the handler. *)
Lemma edit_phone_loop_rejected (todo : list loc) (vs : list str)
    (old_phone new_phone : str) (st : state) :
  values_of (phone_objs st) todo = Some vs → old_phone ∈ vs →
  ten_digits new_phone = false →
  edit_phone_loop todo old_phone new_phone st =
    Some (Return false, set_stdout (λ out, out ++ [rejected_line]) st).
Proof.
  intros Hvs Hin Hbad. revert vs Hvs Hin.
  induction todo as [|p todo IH]; intros vs; simpl.
  - intros [= <-] Hin. inversion Hin.
  - unfold bind at 1. unfold get_value.
    destruct (phone_objs st !! p) as [f|]; [|discriminate].
    destruct (values_of (phone_objs st) todo) as [ws|]; [|discriminate].
    intros [= <-] Hin.
    destruct (decide (value f = old_phone)) as [Heq|Hne].
    + unfold try_except, bind. rewrite (Phone_rejects _ _ Hbad). reflexivity.
    + apply (IH ws); [reflexivity|].
      apply elem_of_cons in Hin as [Heq|Hin]; [congruence | exact Hin].
Qed.

(** The first phone holding [old_phone] is at position [i] and
    [new_phone] is accepted: the instance at [i] is assigned the new
    value, after the instance built to validate it was allocated. *)
Lemma edit_phone_loop_accepted (todo : list loc) (vs : list str) (i : nat)
    (old_phone new_phone : str) (st : state) :
  values_of (phone_objs st) todo = Some vs →
  vs !! i = Some old_phone → (∀ j, j < i → vs !! j ≠ Some old_phone) →
  ten_digits new_phone = true →
  ∃ p, todo !! i = Some p ∧
    edit_phone_loop todo old_phone new_phone st =
      Some (Return true,
            set_phone_objs
              (λ h, <[p := mkField new_phone]> (h ++ [mkField new_phone])) st).
Proof.
  intros Hvs Hi Hfirst Hgood. revert vs i Hvs Hi Hfirst.
  induction todo as [|p todo IH]; intros vs i; simpl.
  - intros [= <-]. discriminate.
  - unfold bind at 1. unfold get_value.
    destruct (phone_objs st !! p) as [f|] eqn:Hp; [|discriminate].
    destruct (values_of (phone_objs st) todo) as [ws|]; [|discriminate].
    intros [= <-] Hi Hfirst.
    destruct (decide (value f = old_phone)) as [Heq|Hne].
    + destruct i as [|i].
      * exists p. split; [reflexivity|].
        unfold try_except, bind. rewrite (Phone_accepts _ _ Hgood).
        unfold get_value, set_value. simpl.
        rewrite list_lookup_middle by reflexivity. simpl.
        rewrite (lookup_app_l_Some _ _ _ _ Hp). reflexivity.
      * exfalso. apply (Hfirst 0); [lia|]. simpl. congruence.
    + destruct i as [|i]; [simpl in Hi; congruence|].
      apply (IH ws i); [reflexivity | exact Hi |].
      intros j Hj. apply (Hfirst (S j)). lia.
Qed.
End EditPhone.

Section RecordClaims.
Context {unicode : UnicodeData}.

(** C2.  Some phone of the record holds [old_phone] and [new_phone] fails
    validation (it is not ten digits): [edit_phone] returns [False], no exception reaches the
    caller, and the store differs from the one before the call only by
    the printed line, so the record's phones, the instances in them and
    their order are what they were. *)
Theorem edit_phone_invalid_new (st : state) (self : loc) (o : RecordObj)
    (vs : list str) (old_phone new_phone : str) :
  record_objs st !! self = Some o →
  values_of (phone_objs st) (phones o) = Some vs →
  old_phone ∈ vs →
  ten_digits new_phone = false →
  ∃ st',
    edit_phone self old_phone new_phone st = Some (Return false, st')
    ∧ st' = set_stdout (λ out, out ++ [rejected_line]) st
    ∧ record_objs st' !! self = Some o
    ∧ values_of (phone_objs st') (phones o) = Some vs.
Proof.
  intros Hself Hvs Hin Hbad. eexists. split; [|split; [reflexivity|]].
  - unfold edit_phone, bind, get_record. rewrite Hself.
    apply (edit_phone_loop_rejected _ vs); assumption.
  - split; assumption.
Qed.

Lemma add_phone_rejected (st : state) (self : loc) (candidate : str) :
  ten_digits candidate = false →
  add_phone self candidate st =
    Some (Return tt, set_stdout (λ out, out ++ [rejected_line]) st).
Proof.
  intros Hbad. unfold add_phone, try_except, bind.
  rewrite (Phone_rejects _ _ Hbad). reflexivity.
Qed.

(** C3.  A candidate that fails validation (it is not ten digits),
    whatever the record: [add_phone] returns normally
    (the [ValueError] is handled inside it) and the store differs only by
    the printed line; the same holds after any number of such calls, each
    adding one line. *)
Theorem add_phone_invalid (st : state) (self : loc) (candidates : list str) :
  Forall (λ c, ten_digits c = false) candidates →
  (∀ c, c ∈ candidates →
     add_phone self c st =
       Some (Return tt, set_stdout (λ out, out ++ [rejected_line]) st))
  ∧ ∃ st',
      add_phones self candidates st = Some (Return tt, st')
      ∧ phone_objs st' = phone_objs st
      ∧ record_objs st' = record_objs st
      ∧ book_objs st' = book_objs st
      ∧ stdout st' = stdout st ++ ((λ _, rejected_line) <$> candidates).
Proof.
  intros Hbad. split.
  - intros c Hc. apply add_phone_rejected.
    rewrite Forall_forall in Hbad. apply Hbad, Hc.
  - revert st. induction Hbad as [|c rest Hc _ IH]; intros st; simpl.
    + eexists. split; [reflexivity|]. rewrite app_nil_r. auto.
    + unfold bind. rewrite (add_phone_rejected _ _ _ Hc).
      destruct (IH (set_stdout (λ out, out ++ [rejected_line]) st))
        as (st' & Hrun & Hp & Hr & Hb & Hout).
      exists st'. split; [exact Hrun|]. simpl in *.
      rewrite Hout, <- app_assoc. auto.
Qed.

(** The first position at which a value occurs. *)
Lemma first_occurrence (v : str) (vs : list str) :
  v ∈ vs → ∃ i, vs !! i = Some v ∧ ∀ j, j < i → vs !! j ≠ Some v.
Proof.
  induction vs as [|w vs IH]; intros Hin; [inversion Hin|].
  destruct (decide (w = v)) as [->|Hne].
  - exists 0. split; [reflexivity | intros j Hj; lia].
  - apply elem_of_cons in Hin as [->|Hin]; [contradiction|].
    destruct (IH Hin) as (i & Hi & Hfirst). exists (S i). split; [exact Hi|].
    intros [|j] Hj; simpl; [congruence | apply Hfirst; lia].
Qed.

(** C4.  When some phone of the record holds [old_phone] and [new_phone]
    passes validation, [edit_phone] returns [True]; with [i] the first
    position holding [old_phone], the record's list of instances is the
    list it was, and the values read through it are the former ones with
    [new_phone] at position [i].  When no phone holds [old_phone],
    [edit_phone] returns [False] and only prints.  The list holds no
    instance twice, as every list built by the methods does
    ([reachable_phones_distinct]). *)
Theorem edit_phone_spec (st : state) (self : loc) (o : RecordObj)
    (vs : list str) (old_phone new_phone : str) :
  record_objs st !! self = Some o →
  values_of (phone_objs st) (phones o) = Some vs →
  (NoDup (phones o) → ten_digits new_phone = true → old_phone ∈ vs →
   ∃ i st',
     vs !! i = Some old_phone
     ∧ (∀ j, j < i → vs !! j ≠ Some old_phone)
     ∧ edit_phone self old_phone new_phone st = Some (Return true, st')
     ∧ record_objs st' = record_objs st
     ∧ values_of (phone_objs st') (phones o) = Some (<[i := new_phone]> vs)
     ∧ book_objs st' = book_objs st ∧ stdout st' = stdout st)
  ∧ (old_phone ∉ vs →
     ∃ st',
       edit_phone self old_phone new_phone st = Some (Return false, st')
       ∧ st' = set_stdout (λ out, out ++ [lit "Phone not found"]) st
       ∧ record_objs st' !! self = Some o
       ∧ values_of (phone_objs st') (phones o) = Some vs).
Proof.
  intros Hself Hvs. split.
  - intros Hnd Hgood Hin.
    destruct (first_occurrence _ _ Hin) as (i & Hi & Hfirst).
    destruct (edit_phone_loop_accepted _ _ _ _ _ _ Hvs Hi Hfirst Hgood)
      as (p & Hp & Hrun).
    exists i. eexists. split; [exact Hi|]. split; [exact Hfirst|]. split.
    + unfold edit_phone, bind, get_record. rewrite Hself. exact Hrun.
    + simpl. repeat split.
      apply values_of_insert; [exact Hnd | | exact Hp].
      apply values_of_alloc, Hvs.
  - intros Hnot. eexists. split; [|split; [reflexivity|split; assumption]].
    unfold edit_phone, bind, get_record. rewrite Hself.
    apply (edit_phone_loop_absent _ vs); assumption.
Qed.
End RecordClaims.

(** ** Rendering a record *)

Lemma str_join_separated (sep : str) (vs : list str) :
  str_join sep vs = separated sep vs.
Proof.
  induction vs as [|v [|w rest] IH].
  - reflexivity.
  - symmetry. apply app_nil_r.
  - change (str_join sep (v :: w :: rest))
      with (v ++ sep ++ str_join sep (w :: rest)).
    rewrite IH. simpl. rewrite <- app_assoc. reflexivity.
Qed.

Lemma Record_str_run (st : state) (self : loc) (o : RecordObj) (vs : list str) :
  record_objs st !! self = Some o →
  values_of (phone_objs st) (phones o) = Some vs →
  Record_str self st =
    Some (Return (lit "Contact name: " ++ value (name o) ++ lit ", phones: "
                  ++ separated (lit "; ") vs), st).
Proof.
  intros Hself Hvs. unfold Record_str, bind, get_record. rewrite Hself.
  rewrite phone_values_values_of, Hvs. simpl.
  rewrite str_join_separated. reflexivity.
Qed.

(** C7.  [str(record)] is ["Contact name: "], the name, [", phones: "] and
    then the values of the phones in list order, each one after the first
    behind ["; "]; with no phones the text ends after [", phones: "].
    Rendering changes nothing in the store. *)
Theorem Record_str_spec (st : state) (self : loc) (o : RecordObj) (vs : list str) :
  record_objs st !! self = Some o →
  values_of (phone_objs st) (phones o) = Some vs →
  Record_str self st =
    Some (Return (lit "Contact name: " ++ value (name o) ++ lit ", phones: "
                  ++ separated (lit "; ") vs), st)
  ∧ (phones o = [] →
     Record_str self st =
       Some (Return (lit "Contact name: " ++ value (name o) ++ lit ", phones: "),
             st)).
Proof.
  intros Hself Hvs. pose proof (Record_str_run st self o vs Hself Hvs) as Hrun.
  split; [exact Hrun|].
  intros Hnil. rewrite Hnil in Hvs. injection Hvs as <-.
  rewrite Hrun. unfold separated. rewrite app_nil_r. reflexivity.
Qed.

(** ** The address book *)

(** C5.  [add_record(record)] stores [record] under the key
    [record.name.value]: that key now maps to [record], every other key
    maps to what it did, and the dict has one entry more only when the key
    was new, so a record already stored under the name is replaced and
    nothing is raised.  [find] with that name then returns [record]
    itself, which renders to the text it rendered to before. *)
Theorem add_record_then_find (st : state) (self record : loc)
    (data : gmap str loc) (o : RecordObj) (vs : list str) :
  book_objs st !! self = Some data →
  record_objs st !! record = Some o →
  values_of (phone_objs st) (phones o) = Some vs →
  let key := value (name o) in
  let data' := <[key := record]> data in
  let st' := set_book_objs (λ h, <[self := data']> h) st in
  AddressBook.add_record self record st = Some (Return tt, st')
  ∧ book_objs st' !! self = Some data'
  ∧ data' !! key = Some record
  ∧ (∀ k, k ≠ key → data' !! k = data !! k)
  ∧ size data' = (if decide (is_Some (data !! key)) then size data else S (size data))
  ∧ AddressBook.find self key st' = Some (Return (Some record), st')
  ∧ ∃ text,
      Record_str record st = Some (Return text, st)
      ∧ Record_str record st' = Some (Return text, st').
Proof.
  intros Hself Hrec Hvs key data' st'.
  assert (Hself' : book_objs st' !! self = Some data').
  { simpl. apply list_lookup_insert_eq. eapply lookup_lt_Some, Hself. }
  repeat split.
  - unfold AddressBook.add_record, bind, get_record, get_data, set_data.
    rewrite Hrec, Hself. simpl. rewrite Hself. reflexivity.
  - exact Hself'.
  - apply lookup_insert_eq.
  - intros k Hk. apply lookup_insert_ne. congruence.
  - subst data'. destruct (decide (is_Some (data !! key))) as [Hsome|Hnone].
    + apply map_size_insert_Some, Hsome.
    + apply map_size_insert_None. apply eq_None_not_Some, Hnone.
  - unfold AddressBook.find, bind, get_data. rewrite Hself'.
    unfold ret. subst data'. rewrite lookup_insert_eq. reflexivity.
  - eexists. split.
    + apply (Record_str_run st record o vs Hrec Hvs).
    + apply (Record_str_run st' record o vs); assumption.
Qed.

(** C6.  [delete(name)] with [name] not a key prints "Record not found" and
    leaves every object of the store, the book's dict among them, as it
    was; with [name] a key it removes that entry and no other. *)
Theorem delete_spec (st : state) (self : loc) (data : gmap str loc) (name : str) :
  book_objs st !! self = Some data →
  (data !! name = None →
   ∃ st',
     AddressBook.delete self name st = Some (Return tt, st')
     ∧ st' = set_stdout (λ out, out ++ [lit "Record not found"]) st
     ∧ book_objs st' !! self = Some data)
  ∧ (is_Some (data !! name) →
     ∃ st' data',
       AddressBook.delete self name st = Some (Return tt, st')
       ∧ st' = set_book_objs (λ h, <[self := data']> h) st
       ∧ book_objs st' !! self = Some data'
       ∧ data' !! name = None
       ∧ (∀ k, k ≠ name → data' !! k = data !! k)
       ∧ S (size data') = size data).
Proof.
  intros Hself. split.
  - intros Hnone. eexists. split; [|split; [reflexivity|exact Hself]].
    unfold AddressBook.delete, bind, get_data. rewrite Hself.
    destruct (decide (is_Some (data !! name))) as [[r Hr]|_]; [congruence|].
    reflexivity.
  - intros Hsome. exists (set_book_objs (λ h, <[self := base.delete name data]> h) st),
      (base.delete name data).
    split; [|split; [reflexivity|]].
    + unfold AddressBook.delete, bind, get_data. rewrite Hself.
      destruct (decide (is_Some (data !! name))) as [_|Hno]; [|contradiction].
      unfold set_data. rewrite Hself. reflexivity.
    + split; [|split; [|split]].
      * simpl. apply list_lookup_insert_eq. eapply lookup_lt_Some, Hself.
      * apply lookup_delete_eq.
      * intros k Hk. apply lookup_delete_ne. congruence.
      * destruct Hsome as [r Hr].
        rewrite (map_size_delete_Some name data) by eauto.
        assert (size data ≠ 0) by (apply (map_size_ne_0_lookup_2 data name); eauto).
        lia.
Qed.

(** ** Invariants of the store *)

Section Invariants.
Context {unicode : UnicodeData}.

Lemma list_remove_first_sublist (x : loc) (l l' : list loc) :
  list_remove_first x l = Some l' → l' `sublist_of` l.
Proof.
  revert l'. induction l as [|y l IH]; intros l'; simpl; [discriminate|].
  destruct (decide (y = x)) as [_|_].
  - intros [= <-]. apply sublist_cons, reflexivity.
  - destruct (list_remove_first x l) as [k|]; [|discriminate].
    intros [= <-]. apply sublist_skip, IH. reflexivity.
Qed.

Lemma consistent_init : consistent init.
Proof. split; simpl; intros *; rewrite ?lookup_nil; discriminate. Qed.

(** Replacing the phones of a record by a list that is live and without
    repetition keeps the store consistent. *)
Lemma consistent_set_phones (st : state) (self : loc) (o : RecordObj) (ps : list loc) :
  consistent st → record_objs st !! self = Some o →
  Forall (λ p, p < length (phone_objs st)) ps → NoDup ps →
  consistent (set_record_objs (λ h, <[self := mkRecord (name o) ps]> h) st).
Proof.
  intros [Hlive Hdist Hvalid Hkeys] Hself Hps Hnd. split; simpl.
  - intros r o' Hr. apply list_lookup_insert_Some in Hr as [(_ & <- & _)|[_ Hr]].
    + exact Hps.
    + apply (Hlive r o' Hr).
  - intros r o' Hr. apply list_lookup_insert_Some in Hr as [(_ & <- & _)|[_ Hr]].
    + exact Hnd.
    + apply (Hdist r o' Hr).
  - exact Hvalid.
  - intros b data k r Hb Hk. destruct (Hkeys b data k r Hb Hk) as (o' & Hr & Hname).
    destruct (decide (self = r)) as [<-|Hne].
    + exists (mkRecord (name o) ps). split.
      * apply list_lookup_insert_eq. eapply lookup_lt_Some, Hself.
      * simpl. congruence.
    + exists o'. split; [|exact Hname].
      rewrite list_lookup_insert_ne by exact Hne. exact Hr.
Qed.

(** Growing the Phone heap by a valid instance keeps the store
    consistent. *)
Lemma consistent_new_phone (st : state) (s : str) :
  consistent st → ten_digits s = true →
  consistent (set_phone_objs (λ h, h ++ [mkField s]) st).
Proof.
  intros [Hlive Hdist Hvalid Hkeys] Hs. split; simpl.
  - intros r o Hr. eapply Forall_impl; [apply (Hlive r o Hr)|].
    intros p Hp. simpl in Hp. rewrite length_app. simpl. lia.
  - exact Hdist.
  - intros p f Hp. apply lookup_snoc_Some in Hp as [[_ Hp]|[_ <-]].
    + apply (Hvalid p f Hp).
    + exact Hs.
  - exact Hkeys.
Qed.

Lemma update_consistent (st st' : state) :
  consistent st → update st st' → consistent st'.
Proof.
  intros Hst Hupd. destruct Hupd as
    [ | line | s Hs | n | self o s Hself Hs | self o p ps Hself Hps
    | | self data data' Hself Hdata ].
  - exact Hst.
  - destruct Hst. split; assumption.
  - apply consistent_new_phone; assumption.
  - destruct Hst as [Hlive Hdist Hvalid Hkeys]. split; simpl.
    + intros r o Hr. apply lookup_snoc_Some in Hr as [[_ Hr]|[_ <-]].
      * apply (Hlive r o Hr).
      * constructor.
    + intros r o Hr. apply lookup_snoc_Some in Hr as [[_ Hr]|[_ <-]].
      * apply (Hdist r o Hr).
      * constructor.
    + exact Hvalid.
    + intros b data k r Hb Hk.
      destruct (Hkeys b data k r Hb Hk) as (o & Hr & Hname).
      exists o. split; [|exact Hname]. apply lookup_app_l_Some, Hr.
  - pose proof (phones_live st Hst self o Hself) as Hlive.
    pose proof (phones_distinct st Hst self o Hself) as Hdist.
    apply (consistent_set_phones
             (set_phone_objs (λ h, h ++ [mkField s]) st) self o).
    + apply consistent_new_phone; assumption.
    + exact Hself.
    + simpl. rewrite length_app. simpl. apply Forall_app. split.
      * eapply Forall_impl; [exact Hlive|]. intros p Hp. simpl in Hp. lia.
      * constructor; [lia | constructor].
    + apply NoDup_app. split; [exact Hdist|]. split; [|apply NoDup_singleton].
      intros p Hp Hin. apply list_elem_of_singleton in Hin as ->.
      rewrite Forall_forall in Hlive. specialize (Hlive _ Hp). simpl in Hlive. lia.
  - pose proof (list_remove_first_sublist _ _ _ Hps) as Hsub.
    apply consistent_set_phones; [exact Hst | exact Hself | |].
    + pose proof (phones_live st Hst self o Hself) as Hlive.
      rewrite Forall_forall in Hlive |- *.
      intros q Hq. apply Hlive. eapply elem_of_sublist; eauto.
    + eapply sublist_NoDup; [|exact Hsub]. apply (phones_distinct st Hst self o Hself).
  - destruct Hst as [Hlive Hdist Hvalid Hkeys]. split; simpl; try assumption.
    intros b data k r Hb Hk. apply lookup_snoc_Some in Hb as [[_ Hb]|[_ <-]].
    + apply (Hkeys b data k r Hb Hk).
    + rewrite lookup_empty in Hk. discriminate.
  - destruct Hst as [Hlive Hdist Hvalid Hkeys]. split; simpl; try assumption.
    intros b d k r Hb Hk.
    apply list_lookup_insert_Some in Hb as [(_ & <- & _)|[_ Hb]].
    + destruct (Hdata k r Hk) as [Hold|Hnew]; [|exact Hnew].
      apply (Hkeys self data k r Hself Hold).
    + apply (Hkeys b d k r Hb Hk).
Qed.

Lemma assigned_consistent (st : state) (p : loc) (s : str) :
  consistent st → ten_digits s = true → consistent (assigned p s st).
Proof.
  intros [Hlive Hdist Hvalid Hkeys] Hs. split; simpl; try assumption.
  - intros r o Hr. eapply Forall_impl; [apply (Hlive r o Hr)|].
    intros q Hq. simpl in Hq. rewrite length_insert, length_app. simpl. lia.
  - intros q f Hq. apply list_lookup_insert_Some in Hq as [(_ & <- & _)|[_ Hq]].
    + exact Hs.
    + apply lookup_snoc_Some in Hq as [[_ Hq]|[_ <-]].
      * apply (Hvalid q f Hq).
      * exact Hs.
Qed.
End Invariants.

(** ** What each call does to the store *)

Section Effects.
Context {unicode : UnicodeData}.

Lemma Phone_effect (s : str) (st : state) (res : outcome loc) (st' : state) :
  Phone s st = Some (res, st') → update st st'.
Proof.
  destruct (ten_digits s) eqn:Hs.
  - rewrite (Phone_accepts _ _ Hs). intros [= <- <-]. constructor. exact Hs.
  - rewrite (Phone_rejects _ _ Hs). intros [= <- <-]. constructor.
Qed.

Lemma Record_effect (n : str) (st : state) (res : outcome loc) (st' : state) :
  Record_ n st = Some (res, st') → update st st'.
Proof.
  unfold Record_, bind, Name. destruct n as [|c n]; simpl.
  - intros [= <- <-]. constructor.
  - intros [= <- <-]. constructor.
Qed.

Lemma add_phone_effect (self : loc) (s : str) (st : state)
    (res : outcome unit) (st' : state) :
  add_phone self s st = Some (res, st') → update st st'.
Proof.
  destruct (ten_digits s) eqn:Hs.
  - unfold add_phone, try_except, bind. rewrite (Phone_accepts _ _ Hs).
    unfold get_record, set_phones. simpl.
    destruct (record_objs st !! self) as [o|] eqn:Hself; [|discriminate].
    simpl. rewrite Hself. intros [= <- <-]. apply upd_append; assumption.
  - rewrite (add_phone_rejected _ _ _ Hs). intros [= <- <-]. constructor.
Qed.

Lemma remove_phone_loop_effect (self : loc) (todo : list loc) (phone : str)
    (st : state) (res : outcome bool) (st' : state) :
  remove_phone_loop self todo phone st = Some (res, st') → update st st'.
Proof.
  induction todo as [|p todo IH]; simpl.
  - intros [= <- <-]. constructor.
  - unfold bind at 1. unfold get_value.
    destruct (phone_objs st !! p) as [f|]; [|discriminate].
    destruct (decide (value f = phone)) as [_|_]; [|exact IH].
    unfold bind, get_record.
    destruct (record_objs st !! self) as [o|] eqn:Hself; [|discriminate].
    destruct (list_remove_first p (phones o)) as [ps|] eqn:Hps.
    + unfold set_phones. rewrite Hself. intros [= <- <-].
      eapply upd_remove; eassumption.
    + intros [= <- <-]. constructor.
Qed.

Lemma remove_phone_effect (self : loc) (phone : str) (st : state)
    (res : outcome bool) (st' : state) :
  remove_phone self phone st = Some (res, st') → update st st'.
Proof.
  unfold remove_phone, bind, get_record.
  destruct (record_objs st !! self) as [o|]; [|discriminate].
  apply remove_phone_loop_effect.
Qed.

(** [edit_phone] either only prints and returns [False], or assigns the
    new value, which passed validation, to an instance of the list that
    held the old one, and returns [True]. *)
Lemma edit_phone_loop_effect (todo : list loc) (old_phone new_phone : str)
    (st : state) (res : outcome bool) (st' : state) :
  edit_phone_loop todo old_phone new_phone st = Some (res, st') →
  (res = Return false ∧ ∃ line, st' = set_stdout (λ out, out ++ [line]) st)
  ∨ (res = Return true ∧ ten_digits new_phone = true ∧
     ∃ p, p ∈ todo ∧ phone_objs st !! p = Some (mkField old_phone)
          ∧ st' = assigned p new_phone st).
Proof.
  induction todo as [|p todo IH]; simpl.
  - intros [= <- <-]. left. eauto.
  - unfold bind at 1. unfold get_value.
    destruct (phone_objs st !! p) as [[v]|] eqn:Hp; [|discriminate]. simpl.
    destruct (decide (v = old_phone)) as [->|_].
    + destruct (ten_digits new_phone) eqn:Hnew.
      * unfold try_except, bind. rewrite (Phone_accepts _ _ Hnew).
        unfold get_value, set_value. simpl.
        rewrite list_lookup_middle by reflexivity. simpl.
        rewrite (lookup_app_l_Some _ _ _ _ Hp).
        intros [= <- <-]. right. split; [reflexivity|]. split; [reflexivity|].
        exists p. split; [left | split; [exact Hp | reflexivity]].
      * unfold try_except, bind. rewrite (Phone_rejects _ _ Hnew).
        intros [= <- <-]. left. eauto.
    + intros Hrun. destruct (IH Hrun) as [Hfalse|(Hres & Hnew & q & Hq & Hrest)].
      * left. exact Hfalse.
      * right. split; [exact Hres|]. split; [exact Hnew|].
        exists q. split; [right; exact Hq | exact Hrest].
Qed.

Lemma edit_phone_effect (self : loc) (old_phone new_phone : str)
    (st : state) (res : outcome bool) (st' : state) :
  edit_phone self old_phone new_phone st = Some (res, st') →
  ∃ o, record_objs st !! self = Some o ∧
    ((res = Return false ∧ ∃ line, st' = set_stdout (λ out, out ++ [line]) st)
     ∨ (res = Return true ∧ ten_digits new_phone = true ∧
        ∃ p, p ∈ phones o ∧ phone_objs st !! p = Some (mkField old_phone)
             ∧ st' = assigned p new_phone st)).
Proof.
  unfold edit_phone, bind, get_record.
  destruct (record_objs st !! self) as [o|]; [|discriminate].
  intros Hrun. exists o. split; [reflexivity|].
  apply edit_phone_loop_effect, Hrun.
Qed.

Lemma find_phone_loop_effect (todo : list loc) (phone : str) (st : state)
    (res : outcome (option loc)) (st' : state) :
  find_phone_loop todo phone st = Some (res, st') → update st st'.
Proof.
  induction todo as [|p todo IH]; simpl.
  - intros [= <- <-]. constructor.
  - unfold bind at 1. unfold get_value.
    destruct (phone_objs st !! p) as [f|]; [|discriminate].
    destruct (decide (value f = phone)) as [_|_]; [|exact IH].
    intros [= <- <-]. constructor.
Qed.

Lemma find_phone_effect (self : loc) (phone : str) (st : state)
    (res : outcome (option loc)) (st' : state) :
  find_phone self phone st = Some (res, st') → update st st'.
Proof.
  unfold find_phone, bind, get_record.
  destruct (record_objs st !! self) as [o|]; [|discriminate].
  apply find_phone_loop_effect.
Qed.

Lemma Record_str_effect (self : loc) (st : state) (res : outcome str) (st' : state) :
  Record_str self st = Some (res, st') → update st st'.
Proof.
  unfold Record_str, bind, get_record.
  destruct (record_objs st !! self) as [o|]; [|discriminate].
  rewrite phone_values_values_of.
  destruct (values_of (phone_objs st) (phones o)); [|discriminate].
  simpl. intros [= <- <-]. constructor.
Qed.

Lemma add_record_effect (self record : loc) (st : state)
    (res : outcome unit) (st' : state) :
  AddressBook.add_record self record st = Some (res, st') → update st st'.
Proof.
  unfold AddressBook.add_record, bind, get_record, get_data, set_data.
  destruct (record_objs st !! record) as [o|] eqn:Hrec; [|discriminate].
  destruct (book_objs st !! self) as [data|] eqn:Hself; [|discriminate].
  simpl. rewrite Hself. intros [= <- <-].
  apply (upd_set_data st self data); [exact Hself|].
  intros k r Hk. apply lookup_insert_Some in Hk as [(<- & <-)|[_ Hk]].
  - right. eauto.
  - left. exact Hk.
Qed.

Lemma find_effect (self : loc) (n : str) (st : state)
    (res : outcome (option loc)) (st' : state) :
  AddressBook.find self n st = Some (res, st') → update st st'.
Proof.
  unfold AddressBook.find, bind, get_data.
  destruct (book_objs st !! self) as [data|]; [|discriminate].
  intros [= <- <-]. constructor.
Qed.

Lemma delete_effect (self : loc) (n : str) (st : state)
    (res : outcome unit) (st' : state) :
  AddressBook.delete self n st = Some (res, st') → update st st'.
Proof.
  unfold AddressBook.delete, bind, get_data, set_data.
  destruct (book_objs st !! self) as [data|] eqn:Hself; [|discriminate].
  destruct (decide (is_Some (data !! n))) as [_|_].
  - simpl. rewrite Hself. intros [= <- <-].
    apply (upd_set_data st self data); [exact Hself|].
    intros k r Hk. apply lookup_delete_Some in Hk as [_ Hk]. left. exact Hk.
  - intros [= <- <-]. constructor.
Qed.

Lemma store_after_Some {A} (m : M A) (st st' : state) :
  store_after m st = Some st' → ∃ res, m st = Some (res, st').
Proof.
  unfold store_after. destruct (m st) as [[res st'']|]; [|discriminate].
  intros [= <-]. eauto.
Qed.

(** Every call other than [edit_phone] performs an [update]; [edit_phone]
    prints, or assigns a validated value. *)
Lemma exec_effect (c : call) (st st' : state) :
  exec c st = Some st' →
  update st st'
  ∨ ∃ self old_phone new_phone p,
      c = CallEditPhone self old_phone new_phone
      ∧ ten_digits new_phone = true
      ∧ phone_objs st !! p = Some (mkField old_phone)
      ∧ st' = assigned p new_phone st.
Proof.
  destruct c; simpl; intros Hrun; apply store_after_Some in Hrun as [res Hrun];
    eauto using Phone_effect, Record_effect, add_phone_effect,
      remove_phone_effect, find_phone_effect, Record_str_effect,
      add_record_effect, find_effect, delete_effect.
  - apply edit_phone_effect in Hrun
      as (o & _ & [[_ [line ->]]|(_ & Hnew & p & _ & Hp & ->)]).
    + left. constructor.
    + right. eauto 10.
  - left. unfold AddressBook.new, alloc_book in Hrun.
    injection Hrun as <- <-. constructor.
Qed.

Lemma exec_consistent (c : call) (st st' : state) :
  consistent st → exec c st = Some st' → consistent st'.
Proof.
  intros Hst Hrun.
  destruct (exec_effect c st st' Hrun)
    as [Hupd|(self & old & new & p & _ & Hnew & _ & ->)].
  - eapply update_consistent; eassumption.
  - apply assigned_consistent; assumption.
Qed.

Lemma exec_all_consistent (cs : list call) (st st' : state) :
  consistent st → exec_all cs st = Some st' → consistent st'.
Proof.
  revert st. induction cs as [|c cs IH]; intros st Hst; simpl.
  - intros [= <-]. exact Hst.
  - destruct (exec c st) as [st1|] eqn:Hc; [|discriminate].
    apply IH. eapply exec_consistent; eassumption.
Qed.

Lemma reachable_consistent (st : state) : reachable st → consistent st.
Proof.
  intros [cs Hcs]. eapply exec_all_consistent; [apply consistent_init | exact Hcs].
Qed.

(** Every list of phones the methods build holds no instance twice. *)
Lemma reachable_phones_distinct (st : state) (r : loc) (o : RecordObj) :
  reachable st → record_objs st !! r = Some o → NoDup (phones o).
Proof. intros Hst. apply (phones_distinct st (reachable_consistent st Hst)). Qed.

(** C9.  In every store the constructors and methods can build, each
    phone in a record's list is a Phone instance of the store whose value
    is ten digits. *)
Theorem reachable_phones_valid (st : state) (r : loc) (o : RecordObj) (p : loc) :
  reachable st →
  record_objs st !! r = Some o → p ∈ phones o →
  ∃ v, phone_objs st !! p = Some (mkField v)
       ∧ length v = 10 ∧ Forall (λ c, category_Nd c = true) v.
Proof.
  intros Hst Hr Hp. apply reachable_consistent in Hst.
  pose proof (phones_live st Hst r o Hr) as Hlive.
  rewrite Forall_forall in Hlive. specialize (Hlive p Hp). simpl in Hlive.
  apply lookup_lt_is_Some in Hlive as [[v] Hv].
  exists v. split; [exact Hv|].
  pose proof (phones_valid st Hst p _ Hv) as Hten. simpl in Hten.
  unfold ten_digits in Hten.
  apply andb_true_iff in Hten as [Hlen Hall].
  apply Nat.eqb_eq in Hlen. apply forallb_true_Forall in Hall. auto.
Qed.

(** C10.  In every store the constructors and methods can build, a key
    of a book's dict maps to a record whose name is that key. *)
Theorem reachable_keys_named (st : state) (b : loc) (data : gmap str loc)
    (k : str) (r : loc) :
  reachable st →
  book_objs st !! b = Some data → data !! k = Some r →
  ∃ o, record_objs st !! r = Some o ∧ value (name o) = k.
Proof.
  intros Hst. apply (keys_named st (reachable_consistent st Hst)).
Qed.
End Effects.

(** ** Phone instances are assigned in place *)

Section InPlace.
Context {unicode : UnicodeData}.

Lemma update_keeps_phones (st st' : state) (p : loc) (f : Field) :
  update st st' → phone_objs st !! p = Some f → phone_objs st' !! p = Some f.
Proof.
  intros Hupd Hp. destruct Hupd; simpl; try exact Hp;
    apply lookup_app_l_Some, Hp.
Qed.

(** C8, as the code has it.  A successful [edit_phone] keeps the stored
    Phone instance and assigns to it: the record's list is the same list
    of instances, the instance [p] of that list that held the old value
    now holds the new one, which passed validation, every other instance
    that existed holds what it held, and the instance constructed to
    validate the new value is new and (in a consistent store) in no
    record's list.  An [edit_phone] that returns [False] and every call
    of another constructor or method leave each existing Phone instance
    with the value it had. *)
Theorem edit_phone_assigns_in_place :
  (∀ st self old_phone new_phone st',
     edit_phone self old_phone new_phone st = Some (Return true, st') →
     ten_digits new_phone = true
     ∧ ∃ o p,
         record_objs st !! self = Some o ∧ p ∈ phones o
         ∧ phone_objs st !! p = Some (mkField old_phone)
         ∧ record_objs st' = record_objs st
         ∧ phone_objs st' !! p = Some (mkField new_phone)
         ∧ (∀ q, q ≠ p → q < length (phone_objs st) →
              phone_objs st' !! q = phone_objs st !! q)
         ∧ phone_objs st' !! length (phone_objs st) = Some (mkField new_phone)
         ∧ length (phone_objs st') = S (length (phone_objs st))
         ∧ (consistent st → ∀ r o', record_objs st' !! r = Some o' →
              length (phone_objs st) ∉ phones o'))
  ∧ (∀ st self old_phone new_phone st',
       edit_phone self old_phone new_phone st = Some (Return false, st') →
       phone_objs st' = phone_objs st ∧ record_objs st' = record_objs st)
  ∧ (∀ c st st',
       (∀ self old_phone new_phone, c ≠ CallEditPhone self old_phone new_phone) →
       exec c st = Some st' →
       ∀ p f, phone_objs st !! p = Some f → phone_objs st' !! p = Some f).
Proof.
  split; [|split].
  - intros st self old new st' Hrun.
    apply edit_phone_effect in Hrun
      as (o & Hself & [[[=] _]|(_ & Hnew & p & Hin & Hp & ->)]).
    split; [exact Hnew|]. exists o, p.
    assert (p < length (phone_objs st)) as Hlt by (eapply lookup_lt_Some, Hp).
    repeat split; try assumption; simpl.
    + apply list_lookup_insert_eq. rewrite length_app. simpl. lia.
    + intros q Hne Hq. rewrite list_lookup_insert_ne by auto.
      apply lookup_app_l. exact Hq.
    + rewrite list_lookup_insert_ne by lia.
      apply list_lookup_middle. reflexivity.
    + rewrite length_insert, length_app. simpl. lia.
    + intros Hst r o' Hr Hfresh.
      pose proof (phones_live st Hst r o' Hr) as Hlive.
      rewrite Forall_forall in Hlive. specialize (Hlive _ Hfresh).
      simpl in Hlive. lia.
  - intros st self old new st' Hrun.
    apply edit_phone_effect in Hrun
      as (o & Hself & [[_ [line ->]]|([=] & _)]).
    split; reflexivity.
  - intros c st st' Hc Hrun p f Hp.
    destruct (exec_effect c st st' Hrun)
      as [Hupd|(self & old & new & q & -> & _)].
    + eapply update_keeps_phones; eassumption.
    + exfalso. eapply Hc. reflexivity.
Qed.
End InPlace.

(** * Further properties: the Record class *)

Lemma RecordObj_eta (o : RecordObj) : mkRecord (name o) (phones o) = o.
Proof. destruct o. reflexivity. Qed.

Lemma values_of_lookup (h : list Field) (ps : list loc) (vs : list str) (i : nat) (p : loc) :
  values_of h ps = Some vs → ps !! i = Some p →
  ∃ f, h !! p = Some f ∧ vs !! i = Some (value f).
Proof.
  revert vs i. induction ps as [|q ps IH]; intros vs i; simpl; [discriminate|].
  destruct (h !! q) as [f|] eqn:Hq; [|discriminate].
  destruct (values_of h ps) as [ws|]; [|discriminate].
  intros [= <-]. destruct i as [|i]; simpl.
  - intros [= <-]. eauto.
  - intros Hi. apply (IH ws i); [reflexivity | exact Hi].
Qed.

Lemma values_of_lookup_value (h : list Field) (ps : list loc) (vs : list str) (i : nat) (v : str) :
  values_of h ps = Some vs → vs !! i = Some v →
  ∃ p, ps !! i = Some p ∧ h !! p = Some (mkField v).
Proof.
  revert vs i. induction ps as [|q ps IH]; intros vs i; simpl.
  - intros [= <-]. discriminate.
  - destruct (h !! q) as [[w]|] eqn:Hq; [|discriminate].
    destruct (values_of h ps) as [ws|]; [|discriminate].
    intros [= <-]. destruct i as [|i]; simpl.
    + intros [= <-]. eauto.
    + intros Hi. apply (IH ws i); [reflexivity | exact Hi].
Qed.

Lemma values_of_app (h : list Field) (ps qs : list loc) (vs ws : list str) :
  values_of h ps = Some vs → values_of h qs = Some ws →
  values_of h (ps ++ qs) = Some (vs ++ ws).
Proof.
  revert vs. induction ps as [|p ps IH]; intros vs; simpl.
  - intros [= <-] Hqs. exact Hqs.
  - destruct (h !! p) as [f|]; [|discriminate].
    destruct (values_of h ps) as [us|]; [|discriminate].
    intros [= <-] Hqs. rewrite (IH us eq_refl Hqs). reflexivity.
Qed.

Lemma values_of_delete (h : list Field) (ps : list loc) (vs : list str) (i : nat) :
  values_of h ps = Some vs → values_of h (delete i ps) = Some (delete i vs).
Proof.
  revert vs i. induction ps as [|p ps IH]; intros vs i; simpl.
  - intros [= <-]. reflexivity.
  - destruct (h !! p) as [f|] eqn:Hp; [|discriminate].
    destruct (values_of h ps) as [us|] eqn:Hus; [|discriminate].
    intros [= <-]. destruct i as [|i]; simpl.
    + exact Hus.
    + rewrite Hp, (IH us i eq_refl). reflexivity.
Qed.

(** [l.remove(x)] deletes the first position that holds [x]. *)
Lemma list_remove_first_delete (x : loc) (l : list loc) (i : nat) :
  l !! i = Some x → (∀ j, j < i → l !! j ≠ Some x) →
  list_remove_first x l = Some (delete i l).
Proof.
  revert i. induction l as [|y l IH]; intros i; simpl; [discriminate|].
  destruct i as [|i]; simpl.
  - intros [= ->] _. destruct (decide (x = x)); [reflexivity | contradiction].
  - intros Hi Hfirst. destruct (decide (y = x)) as [->|_].
    + exfalso. apply (Hfirst 0); [lia | reflexivity].
    + rewrite (IH i Hi); [reflexivity|].
      intros j Hj. apply (Hfirst (S j)). lia.
Qed.

Lemma list_remove_first_elem (x : loc) (l : list loc) :
  x ∈ l → is_Some (list_remove_first x l).
Proof.
  induction l as [|y l IH]; intros Hin; [inversion Hin|]. simpl.
  destruct (decide (y = x)) as [_|Hne]; [eauto|].
  apply elem_of_cons in Hin as [->|Hin]; [contradiction|].
  destruct (IH Hin) as [k ->]. simpl. eauto.
Qed.

(** X1.  [Record(name)] raises [ValueError("Name can't be empty")] exactly
    for the empty name, and then changes nothing.  For any other name it
    returns a record that did not exist, holding that name and no phones;
    every object that existed is as it was, nothing is printed, and the new
    record renders as the name line with nothing after ", phones: ". *)
Theorem Record_init_spec (n : str) (st : state) :
  (Record_ n st = Some (Raise (ValueError (lit "Name can't be empty")), st)
   ↔ n = [])
  ∧ (n ≠ [] →
     ∃ r st',
       Record_ n st = Some (Return r, st')
       ∧ record_objs st !! r = None
       ∧ record_objs st' !! r = Some (mkRecord (mkField n) [])
       ∧ (∀ r' o, record_objs st !! r' = Some o → record_objs st' !! r' = Some o)
       ∧ phone_objs st' = phone_objs st
       ∧ book_objs st' = book_objs st
       ∧ stdout st' = stdout st
       ∧ Record_str r st' =
           Some (Return (lit "Contact name: " ++ n ++ lit ", phones: "), st')).
Proof.
  split.
  - destruct n as [|c n]; unfold Record_, bind, Name; simpl.
    + split; reflexivity.
    + split; discriminate.
  - intros Hn. destruct n as [|c n]; [contradiction|].
    eexists _, _. split; [reflexivity|]. simpl.
    split; [apply lookup_ge_None_2; lia|].
    assert (Hnew : (record_objs st ++ [mkRecord (mkField (c :: n)) []])
                     !! length (record_objs st)
                   = Some (mkRecord (mkField (c :: n)) [])).
    { apply list_lookup_middle. reflexivity. }
    split; [exact Hnew|]. split.
    + intros r' o Hr'. apply lookup_app_l_Some, Hr'.
    + repeat split.
      rewrite (Record_str_run
                 (set_record_objs (λ h, h ++ [mkRecord (mkField (c :: n)) []]) st)
                 (length (record_objs st))
                 (mkRecord (mkField (c :: n)) []) [] Hnew eq_refl).
      unfold separated. rewrite app_nil_r. reflexivity.
Qed.

Section RecordMethodsMore.
Context {unicode : UnicodeData}.

Lemma add_phone_accepted (st : state) (self : loc) (o : RecordObj) (s : str) :
  record_objs st !! self = Some o → ten_digits s = true →
  add_phone self s st =
    Some (Return tt,
          set_record_objs
            (λ h, <[self := mkRecord (name o)
                              (phones o ++ [length (phone_objs st)])]> h)
            (set_phone_objs (λ h, h ++ [mkField s]) st)).
Proof.
  intros Hself Hs. unfold add_phone, try_except, bind.
  rewrite (Phone_accepts _ _ Hs). unfold get_record, set_phones. simpl.
  rewrite Hself. simpl. rewrite Hself. reflexivity.
Qed.

(** X2.  [add_phone] with a candidate of ten digits returns normally and
    prints nothing; the record's list is the former list with one new Phone
    instance at its end, so the values read through it are the former ones
    followed by the candidate, also when the record already holds that
    value.  Every Phone instance that existed holds what it held, and the
    other records and the books are as they were. *)
Theorem add_phone_valid (st : state) (self : loc) (o : RecordObj)
    (vs : list str) (s : str) :
  record_objs st !! self = Some o →
  values_of (phone_objs st) (phones o) = Some vs →
  ten_digits s = true →
  ∃ p st',
    add_phone self s st = Some (Return tt, st')
    ∧ phone_objs st !! p = None
    ∧ record_objs st' !! self = Some (mkRecord (name o) (phones o ++ [p]))
    ∧ values_of (phone_objs st') (phones o ++ [p]) = Some (vs ++ [s])
    ∧ (∀ q f, phone_objs st !! q = Some f → phone_objs st' !! q = Some f)
    ∧ (∀ r, r ≠ self → record_objs st' !! r = record_objs st !! r)
    ∧ book_objs st' = book_objs st
    ∧ stdout st' = stdout st.
Proof.
  intros Hself Hvs Hs. exists (length (phone_objs st)). eexists.
  split; [apply (add_phone_accepted _ _ _ _ Hself Hs)|]. simpl.
  split; [apply lookup_ge_None_2; lia|].
  split; [apply list_lookup_insert_eq; eapply lookup_lt_Some, Hself|].
  split.
  - apply values_of_app; [apply values_of_alloc, Hvs|]. simpl.
    rewrite list_lookup_middle by reflexivity. reflexivity.
  - split; [intros q f Hq; apply lookup_app_l_Some, Hq|].
    split; [intros r Hr; apply list_lookup_insert_ne; congruence|].
    split; reflexivity.
Qed.

(** The loop of [remove_phone] reaches the first phone holding the value
    and hands it to [list.remove]. *)
Lemma remove_phone_loop_found (self : loc) (todo : list loc) (ws : list str)
    (i : nat) (phone : str) (st : state) :
  values_of (phone_objs st) todo = Some ws →
  ws !! i = Some phone → (∀ j, j < i → ws !! j ≠ Some phone) →
  ∃ p, todo !! i = Some p ∧
    remove_phone_loop self todo phone st =
      match record_objs st !! self with
      | Some o =>
          match list_remove_first p (phones o) with
          | Some ps =>
              Some (Return true,
                    set_record_objs (λ h, <[self := mkRecord (name o) ps]> h) st)
          | None =>
              Some (Raise (ValueError (lit "list.remove(x): x not in list")), st)
          end
      | None => None
      end.
Proof.
  revert ws i. induction todo as [|q todo IH]; intros ws i; simpl.
  - intros [= <-]. discriminate.
  - unfold bind at 1. unfold get_value.
    destruct (phone_objs st !! q) as [f|] eqn:Hq; [|discriminate].
    destruct (values_of (phone_objs st) todo) as [us|]; [|discriminate].
    intros [= <-] Hi Hfirst.
    destruct (decide (value f = phone)) as [Heq|Hne].
    + destruct i as [|i]; [|exfalso; apply (Hfirst 0); [lia | simpl; congruence]].
      exists q. split; [reflexivity|].
      unfold bind, get_record.
      destruct (record_objs st !! self) as [o|] eqn:Hself; [|reflexivity].
      destruct (list_remove_first q (phones o)); [|reflexivity].
      unfold set_phones. rewrite Hself. reflexivity.
    + destruct i as [|i]; [simpl in Hi; congruence|].
      apply (IH us i); [reflexivity | exact Hi |].
      intros j Hj. apply (Hfirst (S j)). lia.
Qed.

Lemma remove_phone_loop_absent (self : loc) (todo : list loc) (ws : list str)
    (phone : str) (st : state) :
  values_of (phone_objs st) todo = Some ws → phone ∉ ws →
  remove_phone_loop self todo phone st =
    Some (Return false, set_stdout (λ out, out ++ [lit "Phone not found"]) st).
Proof.
  revert ws. induction todo as [|q todo IH]; intros ws; simpl.
  - reflexivity.
  - unfold bind at 1. unfold get_value.
    destruct (phone_objs st !! q) as [f|]; [|discriminate].
    destruct (values_of (phone_objs st) todo) as [us|]; [|discriminate].
    intros [= <-] Hnot. apply not_elem_of_cons in Hnot as [Hne Hnot].
    destruct (decide (value f = phone)) as [Heq|_]; [congruence|].
    apply (IH us); [reflexivity | exact Hnot].
Qed.

Lemma remove_phone_found (st : state) (self : loc) (o : RecordObj)
    (vs : list str) (i : nat) (phone : str) :
  record_objs st !! self = Some o →
  values_of (phone_objs st) (phones o) = Some vs →
  vs !! i = Some phone → (∀ j, j < i → vs !! j ≠ Some phone) →
  remove_phone self phone st =
    Some (Return true,
          set_record_objs
            (λ h, <[self := mkRecord (name o) (delete i (phones o))]> h) st).
Proof.
  intros Hself Hvs Hi Hfirst.
  destruct (remove_phone_loop_found self _ _ _ _ _ Hvs Hi Hfirst)
    as (p & Hp & Hrun).
  unfold remove_phone, bind, get_record. rewrite Hself, Hrun, Hself.
  rewrite (list_remove_first_delete p (phones o) i Hp); [reflexivity|].
  intros j Hj Hpj.
  destruct (values_of_lookup _ _ _ _ _ Hvs Hpj) as (f & Hf & Hvj).
  destruct (values_of_lookup _ _ _ _ _ Hvs Hp) as (g & Hg & Hvi).
  apply (Hfirst j Hj). congruence.
Qed.

(** X3.  [remove_phone] with a value some phone of the record holds returns
    [True] and takes out one phone, the first that holds the value: with
    [i] its position, the record's list and the values read through it are
    the former ones without position [i], so a later phone holding the same
    value stays.  No Phone instance changes and nothing is printed. *)
Theorem remove_phone_present (st : state) (self : loc) (o : RecordObj)
    (vs : list str) (phone : str) :
  record_objs st !! self = Some o →
  values_of (phone_objs st) (phones o) = Some vs →
  phone ∈ vs →
  ∃ i st',
    vs !! i = Some phone
    ∧ (∀ j, j < i → vs !! j ≠ Some phone)
    ∧ remove_phone self phone st = Some (Return true, st')
    ∧ record_objs st' !! self = Some (mkRecord (name o) (delete i (phones o)))
    ∧ values_of (phone_objs st') (delete i (phones o)) = Some (delete i vs)
    ∧ (∀ r, r ≠ self → record_objs st' !! r = record_objs st !! r)
    ∧ phone_objs st' = phone_objs st
    ∧ book_objs st' = book_objs st
    ∧ stdout st' = stdout st.
Proof.
  intros Hself Hvs Hin.
  destruct (first_occurrence _ _ Hin) as (i & Hi & Hfirst).
  exists i. eexists. split; [exact Hi|]. split; [exact Hfirst|].
  split; [apply (remove_phone_found _ _ _ _ _ _ Hself Hvs Hi Hfirst)|]. simpl.
  split; [apply list_lookup_insert_eq; eapply lookup_lt_Some, Hself|].
  split; [apply values_of_delete, Hvs|].
  split; [intros r Hr; apply list_lookup_insert_ne; congruence|].
  repeat split.
Qed.

(** X4.  [remove_phone] with a value no phone of the record holds returns
    [False], prints "Phone not found" and changes nothing else. *)
Theorem remove_phone_absent (st : state) (self : loc) (o : RecordObj)
    (vs : list str) (phone : str) :
  record_objs st !! self = Some o →
  values_of (phone_objs st) (phones o) = Some vs →
  phone ∉ vs →
  remove_phone self phone st =
    Some (Return false, set_stdout (λ out, out ++ [lit "Phone not found"]) st).
Proof.
  intros Hself Hvs Hnot. unfold remove_phone, bind, get_record. rewrite Hself.
  apply (remove_phone_loop_absent _ _ vs); assumption.
Qed.
End RecordMethodsMore.

Lemma values_of_length (h : list Field) (ps : list loc) (vs : list str) :
  values_of h ps = Some vs → length vs = length ps.
Proof.
  revert vs. induction ps as [|p ps IH]; intros vs; simpl.
  - intros [= <-]. reflexivity.
  - destruct (h !! p); [|discriminate].
    destruct (values_of h ps); [|discriminate].
    intros [= <-]. simpl. f_equal. apply IH. reflexivity.
Qed.

Lemma find_phone_loop_found (todo : list loc) (ws : list str) (i : nat)
    (phone : str) (st : state) :
  values_of (phone_objs st) todo = Some ws →
  ws !! i = Some phone → (∀ j, j < i → ws !! j ≠ Some phone) →
  ∃ p, todo !! i = Some p ∧
    find_phone_loop todo phone st = Some (Return (Some p), st).
Proof.
  revert ws i. induction todo as [|q todo IH]; intros ws i; simpl.
  - intros [= <-]. discriminate.
  - unfold bind at 1. unfold get_value.
    destruct (phone_objs st !! q) as [f|] eqn:Hq; [|discriminate].
    destruct (values_of (phone_objs st) todo) as [us|]; [|discriminate].
    intros [= <-] Hi Hfirst.
    destruct (decide (value f = phone)) as [Heq|Hne].
    + destruct i as [|i]; [|exfalso; apply (Hfirst 0); [lia | simpl; congruence]].
      exists q. split; reflexivity.
    + destruct i as [|i]; [simpl in Hi; congruence|].
      apply (IH us i); [reflexivity | exact Hi |].
      intros j Hj. apply (Hfirst (S j)). lia.
Qed.

Lemma find_phone_loop_absent (todo : list loc) (ws : list str)
    (phone : str) (st : state) :
  values_of (phone_objs st) todo = Some ws → phone ∉ ws →
  find_phone_loop todo phone st =
    Some (Return None, set_stdout (λ out, out ++ [lit "Phone not found"]) st).
Proof.
  revert ws. induction todo as [|q todo IH]; intros ws; simpl.
  - reflexivity.
  - unfold bind at 1. unfold get_value.
    destruct (phone_objs st !! q) as [f|]; [|discriminate].
    destruct (values_of (phone_objs st) todo) as [us|]; [|discriminate].
    intros [= <-] Hnot. apply not_elem_of_cons in Hnot as [Hne Hnot].
    destruct (decide (value f = phone)) as [Heq|_]; [congruence|].
    apply (IH us); [reflexivity | exact Hnot].
Qed.

Lemma find_phone_found (st : state) (self : loc) (o : RecordObj)
    (vs : list str) (i : nat) (phone : str) :
  record_objs st !! self = Some o →
  values_of (phone_objs st) (phones o) = Some vs →
  vs !! i = Some phone → (∀ j, j < i → vs !! j ≠ Some phone) →
  ∃ p, phones o !! i = Some p
       ∧ phone_objs st !! p = Some (mkField phone)
       ∧ find_phone self phone st = Some (Return (Some p), st).
Proof.
  intros Hself Hvs Hi Hfirst.
  destruct (find_phone_loop_found _ _ _ _ _ Hvs Hi Hfirst) as (p & Hp & Hrun).
  exists p. split; [exact Hp|]. split.
  - destruct (values_of_lookup_value _ _ _ _ _ Hvs Hi) as (q & Hq & Hval).
    congruence.
  - unfold find_phone, bind, get_record. rewrite Hself. exact Hrun.
Qed.

(** X5.  [find_phone] with a value some phone of the record holds returns
    the Phone instance at the first position holding it, the stored object
    itself, and changes nothing, not even the output; with a value no phone
    holds it returns [None] and prints "Phone not found". *)
Theorem find_phone_spec (st : state) (self : loc) (o : RecordObj)
    (vs : list str) (phone : str) :
  record_objs st !! self = Some o →
  values_of (phone_objs st) (phones o) = Some vs →
  (phone ∈ vs →
   ∃ i p,
     vs !! i = Some phone
     ∧ (∀ j, j < i → vs !! j ≠ Some phone)
     ∧ phones o !! i = Some p
     ∧ phone_objs st !! p = Some (mkField phone)
     ∧ find_phone self phone st = Some (Return (Some p), st))
  ∧ (phone ∉ vs →
     find_phone self phone st =
       Some (Return None,
             set_stdout (λ out, out ++ [lit "Phone not found"]) st)).
Proof.
  intros Hself Hvs. split.
  - intros Hin. destruct (first_occurrence _ _ Hin) as (i & Hi & Hfirst).
    destruct (find_phone_found _ _ _ _ _ _ Hself Hvs Hi Hfirst)
      as (p & Hp & Hval & Hrun).
    exists i, p. auto.
  - intros Hnot. unfold find_phone, bind, get_record. rewrite Hself.
    apply (find_phone_loop_absent _ vs); assumption.
Qed.

Section Compositions.
Context {unicode : UnicodeData}.

(** X6.  [add_phone] of a ten-digit value the record does not hold yet,
    then [remove_phone] of that value: the second call returns [True] and
    every record, this one with its list of phones, is what it was before
    the first call. *)
Theorem add_phone_then_remove_phone (st : state) (self : loc) (o : RecordObj)
    (vs : list str) (s : str) :
  record_objs st !! self = Some o →
  values_of (phone_objs st) (phones o) = Some vs →
  ten_digits s = true →
  s ∉ vs →
  ∃ st1 st2,
    add_phone self s st = Some (Return tt, st1)
    ∧ remove_phone self s st1 = Some (Return true, st2)
    ∧ record_objs st2 = record_objs st
    ∧ values_of (phone_objs st2) (phones o) = Some vs
    ∧ book_objs st2 = book_objs st
    ∧ stdout st2 = stdout st.
Proof.
  intros Hself Hvs Hs Hnot.
  pose proof (values_of_length _ _ _ Hvs) as Hlen.
  set (p := length (phone_objs st)).
  set (o1 := mkRecord (name o) (phones o ++ [p])).
  set (st1 := set_record_objs (λ h, <[self := o1]> h)
                (set_phone_objs (λ h, h ++ [mkField s]) st)).
  assert (Hself1 : record_objs st1 !! self = Some o1).
  { simpl. apply list_lookup_insert_eq. eapply lookup_lt_Some, Hself. }
  assert (Hvs1 : values_of (phone_objs st1) (phones o1) = Some (vs ++ [s])).
  { simpl. apply values_of_app; [apply values_of_alloc, Hvs|]. simpl.
    subst p. rewrite list_lookup_middle by reflexivity. reflexivity. }
  assert (Hi : (vs ++ [s]) !! length (phones o) = Some s).
  { apply list_lookup_middle. symmetry. exact Hlen. }
  assert (Hfirst : ∀ j, j < length (phones o) → (vs ++ [s]) !! j ≠ Some s).
  { intros j Hj Hvj. rewrite lookup_app_l in Hvj by lia.
    apply Hnot. eapply list_elem_of_lookup_2, Hvj. }
  exists st1. eexists. split; [apply (add_phone_accepted _ _ _ _ Hself Hs)|].
  split; [apply (remove_phone_found _ _ _ _ _ _ Hself1 Hvs1 Hi Hfirst)|].
  simpl. rewrite delete_middle, app_nil_r, list_insert_insert_eq, RecordObj_eta.
  split; [apply list_insert_id, Hself|].
  split; [apply values_of_alloc, Hvs|]. split; reflexivity.
Qed.

(** X7.  After [add_phone] of a ten-digit value, [find_phone] of that value
    returns a phone of the record that holds it, and prints nothing. *)
Theorem add_phone_then_find_phone (st : state) (self : loc) (o : RecordObj)
    (vs : list str) (s : str) :
  record_objs st !! self = Some o →
  values_of (phone_objs st) (phones o) = Some vs →
  ten_digits s = true →
  ∃ st1 o1 q,
    add_phone self s st = Some (Return tt, st1)
    ∧ find_phone self s st1 = Some (Return (Some q), st1)
    ∧ record_objs st1 !! self = Some o1
    ∧ q ∈ phones o1
    ∧ phone_objs st1 !! q = Some (mkField s).
Proof.
  intros Hself Hvs Hs.
  set (p := length (phone_objs st)).
  set (o1 := mkRecord (name o) (phones o ++ [p])).
  set (st1 := set_record_objs (λ h, <[self := o1]> h)
                (set_phone_objs (λ h, h ++ [mkField s]) st)).
  assert (Hself1 : record_objs st1 !! self = Some o1).
  { simpl. apply list_lookup_insert_eq. eapply lookup_lt_Some, Hself. }
  assert (Hvs1 : values_of (phone_objs st1) (phones o1) = Some (vs ++ [s])).
  { simpl. apply values_of_app; [apply values_of_alloc, Hvs|]. simpl.
    subst p. rewrite list_lookup_middle by reflexivity. reflexivity. }
  assert (Hin : s ∈ vs ++ [s]) by (apply elem_of_app; right; left).
  destruct (first_occurrence _ _ Hin) as (i & Hi & Hfirst).
  destruct (find_phone_found _ _ _ _ _ _ Hself1 Hvs1 Hi Hfirst)
    as (q & Hq & Hval & Hrun).
  exists st1, o1, q. split; [apply (add_phone_accepted _ _ _ _ Hself Hs)|].
  split; [exact Hrun|]. split; [exact Hself1|].
  split; [eapply list_elem_of_lookup_2, Hq | exact Hval].
Qed.
End Compositions.

(** ** No method raises *)

Lemma raised_Some {A} (m : M A) (st : state) (e : exn) :
  raised m st = Some e → ∃ st', m st = Some (Raise e, st').
Proof.
  unfold raised. destruct (m st) as [[[a|e'] st']|]; try discriminate.
  intros [= <-]. eauto.
Qed.

Section NoRaise.
Context {unicode : UnicodeData}.

(** The phone [remove_phone] hands to [list.remove] comes from the list it
    is removed from, so [list.remove] finds it. *)
Lemma remove_phone_loop_returns (self : loc) (todo : list loc) (phone : str)
    (st : state) (res : outcome bool) (st' : state) :
  (∀ o p, record_objs st !! self = Some o → p ∈ todo → p ∈ phones o) →
  remove_phone_loop self todo phone st = Some (res, st') →
  ∃ b, res = Return b.
Proof.
  induction todo as [|q todo IH]; intros Hsub; simpl.
  - intros [= <- _]. eauto.
  - unfold bind at 1. unfold get_value.
    destruct (phone_objs st !! q) as [f|]; [|discriminate].
    destruct (decide (value f = phone)) as [_|_].
    + unfold bind, get_record.
      destruct (record_objs st !! self) as [o|] eqn:Hself; [|discriminate].
      destruct (list_remove_first_elem q (phones o)) as [ps Hps].
      { apply (Hsub o q eq_refl). left. }
      rewrite Hps. unfold set_phones. rewrite Hself. intros [= <- _]. eauto.
    + apply IH. intros o p Ho Hp. apply (Hsub o p Ho). right. exact Hp.
Qed.

Lemma find_phone_loop_returns (todo : list loc) (phone : str)
    (st : state) (res : outcome (option loc)) (st' : state) :
  find_phone_loop todo phone st = Some (res, st') → ∃ b, res = Return b.
Proof.
  induction todo as [|q todo IH]; simpl.
  - intros [= <- _]. eauto.
  - unfold bind at 1. unfold get_value.
    destruct (phone_objs st !! q) as [f|]; [|discriminate].
    destruct (decide (value f = phone)) as [_|_]; [|exact IH].
    intros [= <- _]. eauto.
Qed.

(** X8.  The only calls that raise are the constructors given a value
    their check rejects: [Record("")] and [Phone(s)] for [s] not ten
    digits.  No method of Record or AddressBook raises, in any store; in
    particular the [ValueError] of [list.remove] never leaves
    [remove_phone], and the one of [Phone] never leaves [add_phone] or
    [edit_phone]. *)
Theorem only_constructors_raise (c : call) (st : state) (e : exn) :
  exec_raised c st = Some e →
  (c = CallRecord [] ∧ e = ValueError (lit "Name can't be empty"))
  ∨ (∃ s, c = CallPhone s ∧ ten_digits s = false
          ∧ e = ValueError (lit "The phone should contain 10 digits")).
Proof.
  destruct c as [s|n|self s|self s|self old new|self s|self| |self r|self n|self n];
    simpl; intros Hraise; apply raised_Some in Hraise as [st' Hrun].
  - right. exists s. destruct (ten_digits s) eqn:Hs.
    + rewrite (Phone_accepts _ _ Hs) in Hrun. discriminate.
    + rewrite (Phone_rejects _ _ Hs) in Hrun. injection Hrun as <- _. auto.
  - left. destruct n as [|ch n]; unfold Record_, bind, Name in Hrun; simpl in Hrun.
    + injection Hrun as <- _. auto.
    + discriminate.
  - exfalso. destruct (ten_digits s) eqn:Hs.
    + unfold add_phone, try_except, bind in Hrun.
      rewrite (Phone_accepts _ _ Hs) in Hrun.
      unfold get_record, set_phones in Hrun. simpl in Hrun.
      destruct (record_objs st !! self) as [o|] eqn:Hself; [|discriminate].
      simpl in Hrun. rewrite Hself in Hrun. discriminate.
    + rewrite (add_phone_rejected _ _ _ Hs) in Hrun. discriminate.
  - exfalso. unfold remove_phone, bind, get_record in Hrun.
    destruct (record_objs st !! self) as [o|] eqn:Hself; [|discriminate].
    apply remove_phone_loop_returns in Hrun as [b [=]].
    intros o' p Ho' Hp. congruence.
  - exfalso. apply edit_phone_effect in Hrun
      as (o & _ & [[[=] _]|([=] & _)]).
  - exfalso. unfold find_phone, bind, get_record in Hrun.
    destruct (record_objs st !! self) as [o|]; [|discriminate].
    apply find_phone_loop_returns in Hrun as [b [=]].
  - exfalso. unfold Record_str, bind, get_record in Hrun.
    destruct (record_objs st !! self) as [o|]; [|discriminate].
    rewrite phone_values_values_of in Hrun.
    destruct (values_of (phone_objs st) (phones o)); discriminate.
  - discriminate.
  - exfalso. unfold AddressBook.add_record, bind, get_record, get_data, set_data in Hrun.
    destruct (record_objs st !! r) as [o|]; [|discriminate].
    destruct (book_objs st !! self) as [data|] eqn:Hself; [|discriminate].
    simpl in Hrun. rewrite Hself in Hrun. discriminate.
  - exfalso. unfold AddressBook.find, bind, get_data in Hrun.
    destruct (book_objs st !! self) as [data|]; discriminate.
  - exfalso. unfold AddressBook.delete, bind, get_data, set_data in Hrun.
    destruct (book_objs st !! self) as [data|] eqn:Hself; [|discriminate].
    destruct (decide (is_Some (data !! n))) as [_|_]; [|discriminate].
    simpl in Hrun. rewrite Hself in Hrun. discriminate.
Qed.
End NoRaise.

(** ** What a call leaves alone *)

Section Frames.
Context {unicode : UnicodeData}.

(** The stores [remove_phone] can leave. *)
Lemma remove_phone_loop_shape (self : loc) (todo : list loc) (phone : str)
    (st : state) (res : outcome bool) (st' : state) :
  remove_phone_loop self todo phone st = Some (res, st') →
  st' = st
  ∨ (∃ line, st' = set_stdout (λ out, out ++ [line]) st)
  ∨ ∃ o p ps, record_objs st !! self = Some o
      ∧ list_remove_first p (phones o) = Some ps
      ∧ st' = set_record_objs (λ h, <[self := mkRecord (name o) ps]> h) st.
Proof.
  induction todo as [|q todo IH]; simpl.
  - intros [= <- <-]. right. left. eauto.
  - unfold bind at 1. unfold get_value.
    destruct (phone_objs st !! q) as [f|]; [|discriminate].
    destruct (decide (value f = phone)) as [_|_]; [|exact IH].
    unfold bind, get_record.
    destruct (record_objs st !! self) as [o|] eqn:Hself; [|discriminate].
    destruct (list_remove_first q (phones o)) as [ps|] eqn:Hps.
    + unfold set_phones. rewrite Hself. intros [= <- <-].
      right. right. exists o, q, ps. auto.
    + intros [= <- <-]. left. reflexivity.
Qed.

Lemma remove_phone_shape (self : loc) (phone : str)
    (st : state) (res : outcome bool) (st' : state) :
  remove_phone self phone st = Some (res, st') →
  st' = st
  ∨ (∃ line, st' = set_stdout (λ out, out ++ [line]) st)
  ∨ ∃ o p ps, record_objs st !! self = Some o
      ∧ list_remove_first p (phones o) = Some ps
      ∧ st' = set_record_objs (λ h, <[self := mkRecord (name o) ps]> h) st.
Proof.
  unfold remove_phone, bind, get_record.
  destruct (record_objs st !! self) as [o|] eqn:Hself; [|discriminate].
  rewrite <- Hself. apply remove_phone_loop_shape.
Qed.

Lemma find_phone_loop_shape (todo : list loc) (phone : str)
    (st : state) (res : outcome (option loc)) (st' : state) :
  find_phone_loop todo phone st = Some (res, st') →
  st' = st ∨ ∃ line, st' = set_stdout (λ out, out ++ [line]) st.
Proof.
  induction todo as [|q todo IH]; simpl.
  - intros [= <- <-]. right. eauto.
  - unfold bind at 1. unfold get_value.
    destruct (phone_objs st !! q) as [f|]; [|discriminate].
    destruct (decide (value f = phone)) as [_|_]; [|exact IH].
    intros [= <- <-]. left. reflexivity.
Qed.

Lemma add_phone_shape (self : loc) (s : str)
    (st : state) (res : outcome unit) (st' : state) :
  add_phone self s st = Some (res, st') →
  (∃ line, st' = set_stdout (λ out, out ++ [line]) st)
  ∨ ∃ o, record_objs st !! self = Some o ∧ ten_digits s = true
      ∧ st' = set_record_objs
                (λ h, <[self := mkRecord (name o)
                                  (phones o ++ [length (phone_objs st)])]> h)
                (set_phone_objs (λ h, h ++ [mkField s]) st).
Proof.
  destruct (ten_digits s) eqn:Hs.
  - destruct (record_objs st !! self) as [o|] eqn:Hself.
    + rewrite (add_phone_accepted _ _ _ _ Hself Hs). intros [= <- <-].
      right. eauto.
    + unfold add_phone, try_except, bind. rewrite (Phone_accepts _ _ Hs).
      unfold get_record. simpl. rewrite Hself. discriminate.
  - rewrite (add_phone_rejected _ _ _ Hs). intros [= <- <-]. left. eauto.
Qed.

Lemma book_calls_keep_records (c : call) (st st' : state) :
  is_book_call c = true →
  exec c st = Some st' →
  phone_objs st' = phone_objs st ∧ record_objs st' = record_objs st.
Proof.
  destruct c as [s|n|self s|self s|self old new|self s|self| |self r|self n|self n];
    try discriminate; intros _ Hrun; simpl in Hrun;
    apply store_after_Some in Hrun as [res Hrun].
  - injection Hrun as _ <-. split; reflexivity.
  - unfold AddressBook.add_record, bind, get_record, get_data, set_data in Hrun.
    destruct (record_objs st !! r) as [o|]; [|discriminate].
    destruct (book_objs st !! self) as [data|] eqn:Hself; [|discriminate].
    simpl in Hrun. rewrite Hself in Hrun. injection Hrun as _ <-.
    split; reflexivity.
  - unfold AddressBook.find, bind, get_data in Hrun.
    destruct (book_objs st !! self) as [data|]; [|discriminate].
    injection Hrun as _ <-. split; reflexivity.
  - unfold AddressBook.delete, bind, get_data, set_data in Hrun.
    destruct (book_objs st !! self) as [data|] eqn:Hself; [|discriminate].
    destruct (decide (is_Some (data !! n))) as [_|_].
    + simpl in Hrun. rewrite Hself in Hrun. injection Hrun as _ <-.
      split; reflexivity.
    + injection Hrun as _ <-. split; reflexivity.
Qed.

(** X9.  The two classes keep to their own objects: a call of the
    AddressBook class changes no Phone and no Record instance, and every
    other call changes no book. *)
Theorem calls_keep_to_their_class (c : call) (st st' : state) :
  exec c st = Some st' →
  (is_book_call c = true →
   phone_objs st' = phone_objs st ∧ record_objs st' = record_objs st)
  ∧ (is_book_call c = false → book_objs st' = book_objs st).
Proof.
  intros Hrun. split.
  { intros Hbook. apply (book_calls_keep_records c st st' Hbook Hrun). }
  destruct c as [s|n|self s|self s|self old new|self s|self| |self r|self n|self n];
    try discriminate; intros _; simpl in Hrun;
    apply store_after_Some in Hrun as [res Hrun].
  - destruct (ten_digits s) eqn:Hs.
    + rewrite (Phone_accepts _ _ Hs) in Hrun. injection Hrun as _ <-. reflexivity.
    + rewrite (Phone_rejects _ _ Hs) in Hrun. injection Hrun as _ <-. reflexivity.
  - destruct n as [|ch n]; unfold Record_, bind, Name in Hrun; simpl in Hrun;
      injection Hrun as _ <-; reflexivity.
  - apply add_phone_shape in Hrun as [[line ->]|(o & _ & _ & ->)]; reflexivity.
  - apply remove_phone_shape in Hrun as [->|[[line ->]|(o & p & ps & _ & _ & ->)]];
      reflexivity.
  - apply edit_phone_effect in Hrun
      as (o & _ & [[_ [line ->]]|(_ & _ & p & _ & _ & ->)]); reflexivity.
  - unfold find_phone, bind, get_record in Hrun.
    destruct (record_objs st !! self) as [o|]; [|discriminate].
    apply find_phone_loop_shape in Hrun as [->|[line ->]]; reflexivity.
  - unfold Record_str, bind, get_record in Hrun.
    destruct (record_objs st !! self) as [o|]; [|discriminate].
    rewrite phone_values_values_of in Hrun.
    destruct (values_of (phone_objs st) (phones o)); [|discriminate].
    injection Hrun as _ <-. reflexivity.
Qed.

Lemma update_keeps_names (st st' : state) (r : loc) (o : RecordObj) :
  update st st' → record_objs st !! r = Some o →
  ∃ o', record_objs st' !! r = Some o' ∧ name o' = name o.
Proof.
  intros Hupd Hr.
  destruct Hupd as
    [ | line | s Hs | n | self o0 s Hself Hs | self o0 p ps Hself Hps
    | | self data data' Hself Hdata ]; simpl; eauto.
  - exists o. split; [apply lookup_app_l_Some, Hr | reflexivity].
  - destruct (decide (self = r)) as [->|Hne].
    + eexists. split.
      * apply list_lookup_insert_eq. eapply lookup_lt_Some, Hr.
      * simpl. congruence.
    + exists o. rewrite list_lookup_insert_ne by exact Hne. auto.
  - destruct (decide (self = r)) as [->|Hne].
    + eexists. split.
      * apply list_lookup_insert_eq. eapply lookup_lt_Some, Hr.
      * simpl. congruence.
    + exists o. rewrite list_lookup_insert_ne by exact Hne. auto.
Qed.

(** X10.  No call removes a record from the store or changes its name:
    whatever is called, a record that exists still exists afterwards under
    the same reference and with the name it was constructed with. *)
Theorem record_name_never_changes (c : call) (st st' : state) (r : loc) (o : RecordObj) :
  exec c st = Some st' →
  record_objs st !! r = Some o →
  ∃ o', record_objs st' !! r = Some o' ∧ name o' = name o.
Proof.
  intros Hrun Hr.
  destruct (exec_effect c st st' Hrun)
    as [Hupd|(self & old & new & p & _ & _ & _ & ->)].
  - eapply update_keeps_names; eassumption.
  - exists o. split; [exact Hr | reflexivity].
Qed.

(** ** Each record owns its phones *)

Lemma exclusive_init : exclusive init.
Proof. intros r1 r2 o1 o2 p _ Hr1. simpl in Hr1. discriminate. Qed.

Lemma exclusive_set_phones (st : state) (self : loc) (o : RecordObj) (ps : list loc) :
  exclusive st → record_objs st !! self = Some o →
  (∀ p, p ∈ ps → p ∈ phones o
        ∨ ∀ r o', record_objs st !! r = Some o' → p ∉ phones o') →
  exclusive (set_record_objs (λ h, <[self := mkRecord (name o) ps]> h) st).
Proof.
  intros Hex Hself Hps r1 r2 o1 o2 p Hne Hr1 Hr2 Hp1 Hp2. simpl in Hr1, Hr2.
  apply list_lookup_insert_Some in Hr1 as [(<- & <- & _)|[Hne1 Hr1]];
    apply list_lookup_insert_Some in Hr2 as [(<- & <- & _)|[Hne2 Hr2]];
    simpl in *.
  - contradiction.
  - destruct (Hps p Hp1) as [Hold|Hfresh].
    + apply (Hex self r2 o o2 p); assumption.
    + apply (Hfresh r2 o2 Hr2 Hp2).
  - destruct (Hps p Hp2) as [Hold|Hfresh].
    + apply (Hex r1 self o1 o p); assumption.
    + apply (Hfresh r1 o1 Hr1 Hp1).
  - apply (Hex r1 r2 o1 o2 p); assumption.
Qed.

Lemma update_exclusive (st st' : state) :
  consistent st → exclusive st → update st st' → exclusive st'.
Proof.
  intros Hst Hex Hupd. destruct Hupd as
    [ | line | s Hs | n | self o s Hself Hs | self o p ps Hself Hps
    | | self data data' Hself Hdata ]; try exact Hex.
  - intros r1 r2 o1 o2 p Hne Hr1 Hr2 Hp1 Hp2. simpl in Hr1, Hr2.
    apply lookup_snoc_Some in Hr1 as [[_ Hr1]|[_ <-]];
      [|simpl in Hp1; inversion Hp1].
    apply lookup_snoc_Some in Hr2 as [[_ Hr2]|[_ <-]];
      [|simpl in Hp2; inversion Hp2].
    apply (Hex r1 r2 o1 o2 p); assumption.
  - apply (exclusive_set_phones
             (set_phone_objs (λ h, h ++ [mkField s]) st) self o);
      [exact Hex | exact Hself |].
    intros p Hp. apply elem_of_app in Hp as [Hp|Hp]; [left; exact Hp|].
    right. apply list_elem_of_singleton in Hp as ->. intros r o' Hr Hin.
    pose proof (phones_live st Hst r o' Hr) as Hlive.
    rewrite Forall_forall in Hlive. specialize (Hlive _ Hin). simpl in Hlive. lia.
  - apply exclusive_set_phones; [exact Hex | exact Hself |].
    intros q Hq. left.
    eapply elem_of_sublist; [exact Hq | eapply list_remove_first_sublist, Hps].
Qed.

Lemma exec_all_exclusive (cs : list call) (st st' : state) :
  consistent st → exclusive st → exec_all cs st = Some st' → exclusive st'.
Proof.
  revert st. induction cs as [|c cs IH]; intros st Hst Hex; simpl.
  - intros [= <-]. exact Hex.
  - destruct (exec c st) as [st1|] eqn:Hc; [|discriminate].
    apply IH; [eapply exec_consistent; eassumption|].
    destruct (exec_effect c st st1 Hc)
      as [Hupd|(self & old & new & p & _ & _ & _ & ->)].
    + eapply update_exclusive; eassumption.
    + exact Hex.
Qed.

Lemma reachable_is_exclusive (st : state) : reachable st → exclusive st.
Proof.
  intros [cs Hcs]. apply (exec_all_exclusive cs init st);
    [apply consistent_init | apply exclusive_init | exact Hcs].
Qed.

(** X11.  In every store the constructors and methods can build, no Phone
    instance is in the lists of two records. *)
Theorem reachable_exclusive (st : state) (r1 r2 : loc) (o1 o2 : RecordObj) (p : loc) :
  reachable st →
  r1 ≠ r2 →
  record_objs st !! r1 = Some o1 → record_objs st !! r2 = Some o2 →
  p ∈ phones o1 → p ∉ phones o2.
Proof.
  intros Hreach. apply (reachable_is_exclusive st Hreach).
Qed.

(** X12.  In every such store, a method called on one record changes
    nothing of another: after [add_phone], [remove_phone] or [edit_phone]
    on record [a], whatever they return, record [b] has the list of phones
    it had and its phones hold the values they held. *)
Theorem other_records_untouched (st : state) (a b : loc) (ob : RecordObj)
    (vsb : list str) :
  reachable st →
  a ≠ b →
  record_objs st !! b = Some ob →
  values_of (phone_objs st) (phones ob) = Some vsb →
  ∀ st',
    ((∃ s res, add_phone a s st = Some (res, st'))
     ∨ (∃ s res, remove_phone a s st = Some (res, st'))
     ∨ (∃ old new res, edit_phone a old new st = Some (res, st'))) →
    record_objs st' !! b = Some ob
    ∧ values_of (phone_objs st') (phones ob) = Some vsb.
Proof.
  intros Hreach Hne Hb Hvsb st' [(s & res & Hrun)|[(s & res & Hrun)|(old & new & res & Hrun)]].
  - apply add_phone_shape in Hrun as [[line ->]|(o & _ & _ & ->)]; simpl.
    + auto.
    + rewrite list_lookup_insert_ne by exact Hne.
      split; [exact Hb | apply values_of_alloc, Hvsb].
  - apply remove_phone_shape in Hrun as [->|[[line ->]|(o & p & ps & _ & _ & ->)]];
      simpl; auto.
    rewrite list_lookup_insert_ne by exact Hne. auto.
  - apply edit_phone_effect in Hrun
      as (oa & Ha & [[_ [line ->]]|(_ & _ & p & Hp & _ & ->)]); simpl; auto.
    split; [exact Hb|].
    rewrite values_of_insert_other; [apply values_of_alloc, Hvsb|].
    apply (reachable_is_exclusive st Hreach a b oa ob p Hne Ha Hb Hp).
Qed.
End Frames.

(** * Further properties: the AddressBook class *)

(** X13.  After [delete(name)], [find(name)] returns [None], whether the
    name was a key or not. *)
Theorem delete_then_find (st : state) (self : loc) (data : gmap str loc) (n : str) :
  book_objs st !! self = Some data →
  ∃ st1,
    AddressBook.delete self n st = Some (Return tt, st1)
    ∧ AddressBook.find self n st1 = Some (Return None, st1).
Proof.
  intros Hself. unfold AddressBook.delete, AddressBook.find, bind, get_data.
  rewrite Hself. destruct (decide (is_Some (data !! n))) as [_|Hnone].
  - unfold set_data. rewrite Hself. eexists. split; [reflexivity|]. simpl.
    rewrite list_lookup_insert_eq by (eapply lookup_lt_Some, Hself).
    unfold ret. rewrite lookup_delete_eq. reflexivity.
  - eexists. split; [reflexivity|]. simpl. rewrite Hself.
    apply eq_None_not_Some in Hnone. unfold ret. rewrite Hnone. reflexivity.
Qed.

Section Aliasing.
Context {unicode : UnicodeData}.

(** X14.  A book stores the record itself, not a copy: after
    [add_record(record)], a phone added to the record is seen through the
    book.  [find] with the record's name still returns the same record, and
    it renders with the new phone at the end. *)
Theorem book_sees_later_phones (st : state) (b record : loc)
    (data : gmap str loc) (o : RecordObj) (vs : list str) (s : str) :
  book_objs st !! b = Some data →
  record_objs st !! record = Some o →
  values_of (phone_objs st) (phones o) = Some vs →
  ten_digits s = true →
  ∃ st1 st2,
    AddressBook.add_record b record st = Some (Return tt, st1)
    ∧ add_phone record s st1 = Some (Return tt, st2)
    ∧ AddressBook.find b (value (name o)) st2 = Some (Return (Some record), st2)
    ∧ Record_str record st2 =
        Some (Return (lit "Contact name: " ++ value (name o) ++ lit ", phones: "
                      ++ separated (lit "; ") (vs ++ [s])), st2).
Proof.
  intros Hb Hrec Hvs Hs.
  set (data' := <[value (name o) := record]> data).
  set (st1 := set_book_objs (λ h, <[b := data']> h) st).
  assert (Hrec1 : record_objs st1 !! record = Some o) by exact Hrec.
  set (o2 := mkRecord (name o) (phones o ++ [length (phone_objs st1)])).
  set (st2 := set_record_objs (λ h, <[record := o2]> h)
                (set_phone_objs (λ h, h ++ [mkField s]) st1)).
  exists st1, st2. split; [|split; [|split]].
  - unfold AddressBook.add_record, bind, get_record, get_data, set_data.
    rewrite Hrec, Hb. simpl. rewrite Hb. reflexivity.
  - apply (add_phone_accepted _ _ _ _ Hrec1 Hs).
  - unfold AddressBook.find, bind, get_data. simpl.
    rewrite list_lookup_insert_eq by (eapply lookup_lt_Some, Hb).
    unfold ret. subst data'. rewrite lookup_insert_eq. reflexivity.
  - apply (Record_str_run st2 record o2 (vs ++ [s])).
    + simpl. apply list_lookup_insert_eq. eapply lookup_lt_Some, Hrec.
    + simpl. apply values_of_app; [apply values_of_alloc, Hvs|]. simpl.
      rewrite list_lookup_middle by reflexivity. reflexivity.
Qed.
End Aliasing.

(** ** The dict in insertion order *)

Lemma dict_map_setitem (k : str) (v : loc) (d : odict) :
  dict_map (setitem k v d) = <[k := v]> (dict_map d).
Proof.
  unfold dict_map. induction d as [|[k' v'] d IH]; simpl; [reflexivity|].
  destruct (decide (k' = k)) as [->|Hne]; simpl.
  - rewrite insert_insert_eq. reflexivity.
  - rewrite IH. apply insert_insert_ne. exact Hne.
Qed.

Lemma dict_get_lookup (k : str) (d : odict) : dict_get k d = dict_map d !! k.
Proof.
  unfold dict_map. induction d as [|[k' v'] d IH]; simpl; [reflexivity|].
  destruct (decide (k' = k)) as [->|Hne].
  - rewrite lookup_insert_eq. reflexivity.
  - rewrite lookup_insert_ne by exact Hne. exact IH.
Qed.

Lemma dict_map_delitem (k : str) (d : odict) :
  NoDup d.*1 → dict_map (delitem k d) = base.delete k (dict_map d).
Proof.
  unfold dict_map. induction d as [|[k' v'] d IH]; simpl; intros Hnd.
  - rewrite delete_empty. reflexivity.
  - apply NoDup_cons in Hnd as [Hk' Hnd].
    destruct (decide (k' = k)) as [->|Hne]; simpl.
    + rewrite delete_insert_id; [reflexivity|].
      apply not_elem_of_list_to_map_1, Hk'.
    + rewrite IH by exact Hnd. rewrite delete_insert_ne by congruence. reflexivity.
Qed.

Lemma setitem_keys (k : str) (v : loc) (d : odict) :
  (setitem k v d).*1 = if decide (k ∈ d.*1) then d.*1 else d.*1 ++ [k].
Proof.
  induction d as [|[k' v'] d IH]; csimpl; [reflexivity|].
  destruct (decide (k' = k)) as [->|Hne]; csimpl.
  - rewrite decide_True by left. reflexivity.
  - rewrite IH. destruct (decide (k ∈ d.*1)) as [Hin|Hnot].
    + rewrite decide_True by (right; exact Hin). reflexivity.
    + rewrite decide_False; [reflexivity|].
      intros Hin. apply elem_of_cons in Hin as [->|Hin]; contradiction.
Qed.

Lemma setitem_NoDup (k : str) (v : loc) (d : odict) :
  NoDup d.*1 → NoDup (setitem k v d).*1.
Proof.
  intros Hnd. rewrite setitem_keys. destruct (decide (k ∈ d.*1)) as [_|Hnot].
  - exact Hnd.
  - apply NoDup_app. split; [exact Hnd|]. split; [|apply NoDup_singleton].
    intros x Hx Hin. apply list_elem_of_singleton in Hin as ->. contradiction.
Qed.

Lemma delitem_sublist (k : str) (d : odict) : delitem k d `sublist_of` d.
Proof.
  induction d as [|[k' v'] d IH]; simpl; [constructor|].
  destruct (decide (k' = k)) as [_|_].
  - apply sublist_cons. reflexivity.
  - apply sublist_skip, IH.
Qed.

Lemma delitem_NoDup (k : str) (d : odict) :
  NoDup d.*1 → NoDup (delitem k d).*1.
Proof.
  intros Hnd. eapply sublist_NoDup; [exact Hnd|].
  apply fmap_sublist, delitem_sublist.
Qed.

Lemma set_book_objs_same (st : state) (b : loc) (data : gmap str loc) :
  book_objs st !! b = Some data →
  set_book_objs (λ h, <[b := data]> h) st = st.
Proof.
  intros Hb. destruct st as [ph rs bs out]. unfold set_book_objs. simpl in *.
  rewrite (list_insert_id _ _ _ Hb). reflexivity.
Qed.

(** X15.  The finite map of the store and the dict in insertion order
    agree.  When book [b] of the store holds the map of the ordered dict
    [data] (whose keys are distinct), each of [add_record], [find] and
    [delete] returns and prints the same on both, and afterwards the book
    of the store holds the map of the new ordered dict, whose keys are
    again distinct. *)
Theorem ordered_book_agrees (st : state) (b : loc) (data : odict) (n : str) :
  NoDup data.*1 →
  book_objs st !! b = Some (dict_map data) →
  (∀ record o, record_objs st !! record = Some o →
     ∃ data',
       OrderedBook.add_record data record st = Some (Return data', st)
       ∧ AddressBook.add_record b record st =
           Some (Return tt, set_book_objs (λ h, <[b := dict_map data']> h) st)
       ∧ NoDup data'.*1)
  ∧ (∃ found,
       OrderedBook.find data n st = Some (Return found, st)
       ∧ AddressBook.find b n st = Some (Return found, st))
  ∧ (∃ data' st1,
       OrderedBook.delete data n st = Some (Return data', st1)
       ∧ AddressBook.delete b n st =
           Some (Return tt, set_book_objs (λ h, <[b := dict_map data']> h) st1)
       ∧ NoDup data'.*1).
Proof.
  intros Hnd Hb. split; [|split].
  - intros record o Hrec. eexists. split; [|split].
    + unfold OrderedBook.add_record, bind, get_record. rewrite Hrec. reflexivity.
    + unfold AddressBook.add_record, bind, get_record, get_data, set_data.
      rewrite Hrec, Hb. simpl. rewrite Hb, dict_map_setitem. reflexivity.
    + apply setitem_NoDup, Hnd.
  - exists (dict_get n data). split; [reflexivity|].
    unfold AddressBook.find, bind, get_data. rewrite Hb.
    unfold ret. rewrite dict_get_lookup. reflexivity.
  - unfold OrderedBook.delete, AddressBook.delete, bind, get_data. rewrite Hb.
    rewrite <- dict_get_lookup.
    destruct (decide (is_Some (dict_get n data))) as [_|_].
    + eexists _, _. split; [reflexivity|]. split; [|apply delitem_NoDup, Hnd].
      unfold set_data. rewrite Hb, dict_map_delitem by exact Hnd. reflexivity.
    + eexists _, _. split; [reflexivity|]. split; [|exact Hnd].
      rewrite set_book_objs_same by exact Hb. reflexivity.
Qed.

Lemma setitem_new (k : str) (v : loc) (d : odict) :
  k ∉ d.*1 → setitem k v d = d ++ [(k, v)].
Proof.
  induction d as [|[k' v'] d IH]; simpl; intros Hnot; [reflexivity|].
  apply not_elem_of_cons in Hnot as [Hne Hnot].
  destruct (decide (k' = k)) as [Heq|_]; [congruence|].
  rewrite IH by exact Hnot. reflexivity.
Qed.

Lemma delitem_absent (k : str) (d : odict) : k ∉ d.*1 → delitem k d = d.
Proof.
  induction d as [|[k' v'] d IH]; simpl; intros Hnot; [reflexivity|].
  apply not_elem_of_cons in Hnot as [Hne Hnot].
  destruct (decide (k' = k)) as [Heq|_]; [congruence|].
  rewrite IH by exact Hnot. reflexivity.
Qed.

Lemma setitem_old (k : str) (v v0 : loc) (d : odict) (i : nat) :
  NoDup d.*1 → d !! i = Some (k, v0) →
  setitem k v d = <[i := (k, v)]> d ∧ delitem k d = delete i d.
Proof.
  revert i. induction d as [|[k' v'] d IH]; intros i Hnd; simpl; [discriminate|].
  rewrite fmap_cons in Hnd.
  apply NoDup_cons in Hnd as [Hk' Hnd]. destruct i as [|i]; simpl.
  - intros [= -> ->]. rewrite !decide_True by reflexivity. auto.
  - intros Hi. destruct (decide (k' = k)) as [->|_].
    + exfalso. apply Hk'. apply list_elem_of_fmap. exists (k, v0).
      split; [reflexivity | eapply list_elem_of_lookup_2, Hi].
    + destruct (IH i Hnd Hi) as [-> ->]. auto.
Qed.

(** The order of a dict: assigning to a key it has not appends the item at
    the end; assigning to a key it has, at position [i], puts the new value
    at position [i] and moves nothing; deleting that key removes position
    [i] and keeps the order of the rest. *)
Lemma dict_keeps_insertion_order (k : str) (v : loc) (d : odict) :
  NoDup d.*1 →
  (k ∉ d.*1 → setitem k v d = d ++ [(k, v)] ∧ delitem k d = d)
  ∧ (∀ i v0, d !! i = Some (k, v0) →
       setitem k v d = <[i := (k, v)]> d ∧ delitem k d = delete i d).
Proof.
  intros Hnd. split.
  - intros Hnot. split; [apply setitem_new, Hnot | apply delitem_absent, Hnot].
  - intros i v0 Hi. apply (setitem_old k v v0 d i Hnd Hi).
Qed.

(** ** AddressBook.__str__ *)

Lemma record_strs_lines (records : list loc) (lines : list str) (st : state) :
  Forall2 (λ r line, Record_str r st = Some (Return line, st)) records lines →
  record_strs records st = Some (Return lines, st).
Proof.
  induction 1 as [|r line records lines Hr _ IH]; simpl; [reflexivity|].
  unfold bind. rewrite Hr, IH. reflexivity.
Qed.

Lemma book_str_lines (data : odict) (lines : list str) (st : state) :
  Forall2 (λ kv line, Record_str kv.2 st = Some (Return line, st)) data lines →
  OrderedBook.str_ data st = Some (Return (separated newline lines), st).
Proof.
  intros Hlines. unfold OrderedBook.str_, bind.
  rewrite (record_strs_lines (data.*2) lines).
  - unfold ret. rewrite str_join_separated. reflexivity.
  - apply Forall2_fmap_l. exact Hlines.
Qed.

(** X16.  [str(book)] is the renderings of the book's records, one per
    item of the dict in insertion order, with a newline between two
    consecutive ones and none at the end; for an empty book it is the empty
    string.  It changes nothing in the store. *)
Theorem AddressBook_str_spec (data : odict) (lines : list str) (st : state) :
  Forall2 (λ kv line, Record_str kv.2 st = Some (Return line, st)) data lines →
  OrderedBook.str_ data st = Some (Return (separated newline lines), st)
  ∧ (data = [] → OrderedBook.str_ data st = Some (Return [], st)).
Proof.
  intros Hlines. split; [apply book_str_lines, Hlines|].
  intros ->. reflexivity.
Qed.

(** X17.  Where a record appears in [str(book)]: after [add_record] of a
    record whose name is not a key, its rendering is the last line, after
    the former lines; after [add_record] of a record whose name is the key
    at position [i], its rendering is line [i] and the other lines are in
    place; after [delete] of the key at position [i], line [i] is gone and
    the other lines keep their order. *)
Theorem book_text_order (data : odict) (lines : list str) (st : state) :
  NoDup data.*1 →
  Forall2 (λ kv line, Record_str kv.2 st = Some (Return line, st)) data lines →
  (∀ record o line,
     record_objs st !! record = Some o →
     Record_str record st = Some (Return line, st) →
     ∃ data',
       OrderedBook.add_record data record st = Some (Return data', st)
       ∧ (value (name o) ∉ data.*1 →
          OrderedBook.str_ data' st =
            Some (Return (separated newline (lines ++ [line])), st))
       ∧ (∀ i r0, data !! i = Some (value (name o), r0) →
          OrderedBook.str_ data' st =
            Some (Return (separated newline (<[i := line]> lines)), st)))
  ∧ (∀ n i r0,
       data !! i = Some (n, r0) →
       ∃ data',
         OrderedBook.delete data n st = Some (Return data', st)
         ∧ OrderedBook.str_ data' st =
             Some (Return (separated newline (delete i lines)), st)).
Proof.
  intros Hnd Hlines. split.
  - intros record o line Hrec Hline. eexists. split; [|split].
    + unfold OrderedBook.add_record, bind, get_record. rewrite Hrec. reflexivity.
    + intros Hnew. rewrite (setitem_new _ _ _ Hnew).
      apply book_str_lines, Forall2_app; [exact Hlines|].
      constructor; [exact Hline | constructor].
    + intros i r0 Hi.
      destruct (setitem_old _ record _ _ _ Hnd Hi) as [-> _].
      apply book_str_lines, Forall2_insert; [exact Hlines | exact Hline].
  - intros n i r0 Hi. eexists. split.
    + unfold OrderedBook.delete.
      rewrite decide_True; [reflexivity|].
      rewrite dict_get_lookup. exists r0.
      apply elem_of_list_to_map_1; [exact Hnd|].
      eapply list_elem_of_lookup_2, Hi.
    + destruct (setitem_old n r0 _ _ _ Hnd Hi) as [_ ->].
      apply book_str_lines, Forall2_delete, Hlines.
Qed.

(** * Further properties: names and output *)

Section NamesAndOutput.
Context {unicode : UnicodeData}.

(** Apart from [Record(name)], a call leaves no record with a name that
    was not there under the same reference. *)
Lemma exec_names_from (c : call) (st st' : state) (r : loc) (o' : RecordObj) :
  (∀ n, c ≠ CallRecord n) →
  exec c st = Some st' →
  record_objs st' !! r = Some o' →
  ∃ o, record_objs st !! r = Some o ∧ name o = name o'.
Proof.
  intros Hc Hrun Hr.
  assert (Hset : ∀ self o ps,
            record_objs st !! self = Some o →
            <[self := mkRecord (name o) ps]> (record_objs st) !! r = Some o' →
            ∃ o0, record_objs st !! r = Some o0 ∧ name o0 = name o').
  { intros self o ps Hself Hr'.
    apply list_lookup_insert_Some in Hr' as [(<- & <- & _)|[_ Hr']]; eauto. }
  destruct (is_book_call c) eqn:Hbook.
  - destruct (book_calls_keep_records c st st' Hbook Hrun) as [_ Hrec].
    rewrite Hrec in Hr. eauto.
  - destruct c as [s|n|self s|self s|self old new|self s|self| |self r0|self n|self n];
      simpl in Hbook; try discriminate; simpl in Hrun;
      apply store_after_Some in Hrun as [res Hrun].
    + destruct (ten_digits s) eqn:Hs.
      * rewrite (Phone_accepts _ _ Hs) in Hrun. injection Hrun as _ <-. simpl in Hr. eauto.
      * rewrite (Phone_rejects _ _ Hs) in Hrun. injection Hrun as _ <-. simpl in Hr. eauto.
    + exfalso. apply (Hc n). reflexivity.
    + apply add_phone_shape in Hrun as [[line ->]|(o & Hself & _ & ->)]; simpl in Hr; eauto.
    + apply remove_phone_shape in Hrun
        as [->|[[line ->]|(o & p & ps & Hself & _ & ->)]]; simpl in Hr; eauto.
    + apply edit_phone_effect in Hrun
        as (o & _ & [[_ [line ->]]|(_ & _ & p & _ & _ & ->)]); simpl in Hr; eauto.
    + unfold find_phone, bind, get_record in Hrun.
      destruct (record_objs st !! self) as [o|]; [|discriminate].
      apply find_phone_loop_shape in Hrun as [->|[line ->]]; simpl in Hr; eauto.
    + unfold Record_str, bind, get_record in Hrun.
      destruct (record_objs st !! self) as [o|]; [|discriminate].
      rewrite phone_values_values_of in Hrun.
      destruct (values_of (phone_objs st) (phones o)); [|discriminate].
      injection Hrun as _ <-. simpl in Hr. eauto.
Qed.

Lemma exec_names_nonempty (c : call) (st st' : state) :
  (∀ r o, record_objs st !! r = Some o → value (name o) ≠ []) →
  exec c st = Some st' →
  ∀ r o, record_objs st' !! r = Some o → value (name o) ≠ [].
Proof.
  intros Hst Hrun r o' Hr.
  assert (Hcase : (∃ n, c = CallRecord n) ∨ ∀ n, c ≠ CallRecord n).
  { destruct c; try (right; discriminate). left. eauto. }
  destruct Hcase as [[n ->]|Hc].
  - simpl in Hrun. apply store_after_Some in Hrun as [res Hrun].
    destruct n as [|ch n]; unfold Record_, bind, Name in Hrun; simpl in Hrun;
      injection Hrun as _ <-; [eauto|].
    simpl in Hr. apply lookup_snoc_Some in Hr as [[_ Hr]|[_ <-]]; [eauto|].
    simpl. discriminate.
  - destruct (exec_names_from c st st' r o' Hc Hrun Hr) as (o & Ho & Hname).
    rewrite <- Hname. eauto.
Qed.

Lemma exec_all_names_nonempty (cs : list call) (st st' : state) :
  (∀ r o, record_objs st !! r = Some o → value (name o) ≠ []) →
  exec_all cs st = Some st' →
  ∀ r o, record_objs st' !! r = Some o → value (name o) ≠ [].
Proof.
  revert st. induction cs as [|c cs IH]; intros st Hst; simpl.
  - intros [= <-]. exact Hst.
  - destruct (exec c st) as [st1|] eqn:Hc; [|discriminate].
    apply IH. eapply exec_names_nonempty; eassumption.
Qed.

(** X18.  In every store the constructors and methods can build, no record
    has the empty name, and no book has the empty string as a key. *)
Theorem reachable_names_nonempty (st : state) :
  reachable st →
  (∀ r o, record_objs st !! r = Some o → value (name o) ≠ [])
  ∧ (∀ b data, book_objs st !! b = Some data → data !! ([] : str) = None).
Proof.
  intros Hreach.
  assert (Hnames : ∀ r o, record_objs st !! r = Some o → value (name o) ≠ []).
  { destruct Hreach as [cs Hcs]. apply (exec_all_names_nonempty cs init st);
      [|exact Hcs]. intros r o Hr. simpl in Hr. discriminate. }
  split; [exact Hnames|].
  intros b data Hb. destruct (data !! ([] : str)) as [r|] eqn:Hk; [|reflexivity].
  destruct (keys_named st (reachable_consistent st Hreach) b data _ r Hb Hk)
    as (o & Ho & Hname).
  exfalso. apply (Hnames r o Ho Hname).
Qed.

Lemma remove_phone_loop_prints (self : loc) (todo : list loc) (phone : str)
    (st : state) (res : outcome bool) (st' : state) :
  remove_phone_loop self todo phone st = Some (res, st') →
  stdout st' = stdout st ∨ stdout st' = stdout st ++ [lit "Phone not found"].
Proof.
  induction todo as [|q todo IH]; simpl.
  - intros [= <- <-]. right. reflexivity.
  - unfold bind at 1. unfold get_value.
    destruct (phone_objs st !! q) as [f|]; [|discriminate].
    destruct (decide (value f = phone)) as [_|_]; [|exact IH].
    unfold bind, get_record.
    destruct (record_objs st !! self) as [o|] eqn:Hself; [|discriminate].
    destruct (list_remove_first q (phones o)) as [ps|].
    + unfold set_phones. rewrite Hself. intros [= <- <-]. left. reflexivity.
    + intros [= <- <-]. left. reflexivity.
Qed.

Lemma edit_phone_loop_prints (todo : list loc) (old_phone new_phone : str)
    (st : state) (res : outcome bool) (st' : state) :
  edit_phone_loop todo old_phone new_phone st = Some (res, st') →
  stdout st' = stdout st
  ∨ stdout st' = stdout st ++ [lit "Phone not found"]
  ∨ stdout st' = stdout st ++ [rejected_line].
Proof.
  induction todo as [|p todo IH]; simpl.
  - intros [= <- <-]. right. left. reflexivity.
  - unfold bind at 1. unfold get_value.
    destruct (phone_objs st !! p) as [[v]|] eqn:Hp; [|discriminate]. simpl.
    destruct (decide (v = old_phone)) as [->|_]; [|exact IH].
    destruct (ten_digits new_phone) eqn:Hnew.
    + unfold try_except, bind. rewrite (Phone_accepts _ _ Hnew).
      unfold get_value, set_value. simpl.
      rewrite list_lookup_middle by reflexivity. simpl.
      rewrite (lookup_app_l_Some _ _ _ _ Hp).
      intros [= <- <-]. left. reflexivity.
    + unfold try_except, bind. rewrite (Phone_rejects _ _ Hnew).
      intros [= <- <-]. right. right. reflexivity.
Qed.

Lemma find_phone_loop_prints (todo : list loc) (phone : str)
    (st : state) (res : outcome (option loc)) (st' : state) :
  find_phone_loop todo phone st = Some (res, st') →
  stdout st' = stdout st ∨ stdout st' = stdout st ++ [lit "Phone not found"].
Proof.
  induction todo as [|q todo IH]; simpl.
  - intros [= <- <-]. right. reflexivity.
  - unfold bind at 1. unfold get_value.
    destruct (phone_objs st !! q) as [f|]; [|discriminate].
    destruct (decide (value f = phone)) as [_|_]; [|exact IH].
    intros [= <- <-]. left. reflexivity.
Qed.

(** X19.  A call prints nothing or one line, and the line is one of three:
    "Phone not found", "Record not found", or "Couldn't find the phone: The
    phone should contain 10 digits".  Lines printed earlier stay. *)
Theorem calls_print_at_most_one_line (c : call) (st st' : state) :
  exec c st = Some st' →
  stdout st' = stdout st
  ∨ ∃ line, line ∈ messages ∧ stdout st' = stdout st ++ [line].
Proof.
  assert (Hfound : lit "Phone not found" ∈ messages) by left.
  assert (Hrecord : lit "Record not found" ∈ messages) by (right; left).
  assert (Hrejected : rejected_line ∈ messages) by (right; right; left).
  intros Hrun.
  destruct c as [s|n|self s|self s|self old new|self s|self| |self r|self n|self n];
    simpl in Hrun; apply store_after_Some in Hrun as [res Hrun].
  - left. destruct (ten_digits s) eqn:Hs.
    + rewrite (Phone_accepts _ _ Hs) in Hrun. injection Hrun as _ <-. reflexivity.
    + rewrite (Phone_rejects _ _ Hs) in Hrun. injection Hrun as _ <-. reflexivity.
  - left. destruct n as [|ch n]; unfold Record_, bind, Name in Hrun; simpl in Hrun;
      injection Hrun as _ <-; reflexivity.
  - destruct (ten_digits s) eqn:Hs.
    + left. destruct (record_objs st !! self) as [o|] eqn:Hself.
      * rewrite (add_phone_accepted _ _ _ _ Hself Hs) in Hrun.
        injection Hrun as _ <-. reflexivity.
      * unfold add_phone, try_except, bind in Hrun.
        rewrite (Phone_accepts _ _ Hs) in Hrun.
        unfold get_record in Hrun. simpl in Hrun. rewrite Hself in Hrun.
        discriminate.
    + rewrite (add_phone_rejected _ _ _ Hs) in Hrun. injection Hrun as _ <-.
      right. eauto.
  - unfold remove_phone, bind, get_record in Hrun.
    destruct (record_objs st !! self) as [o|]; [|discriminate].
    apply remove_phone_loop_prints in Hrun as [->| ->]; eauto.
  - unfold edit_phone, bind, get_record in Hrun.
    destruct (record_objs st !! self) as [o|]; [|discriminate].
    apply edit_phone_loop_prints in Hrun as [->|[->| ->]]; eauto.
  - unfold find_phone, bind, get_record in Hrun.
    destruct (record_objs st !! self) as [o|]; [|discriminate].
    apply find_phone_loop_prints in Hrun as [->| ->]; eauto.
  - left. unfold Record_str, bind, get_record in Hrun.
    destruct (record_objs st !! self) as [o|]; [|discriminate].
    rewrite phone_values_values_of in Hrun.
    destruct (values_of (phone_objs st) (phones o)); [|discriminate].
    injection Hrun as _ <-. reflexivity.
  - left. injection Hrun as _ <-. reflexivity.
  - left. unfold AddressBook.add_record, bind, get_record, get_data, set_data in Hrun.
    destruct (record_objs st !! r) as [o|]; [|discriminate].
    destruct (book_objs st !! self) as [data|] eqn:Hself; [|discriminate].
    simpl in Hrun. rewrite Hself in Hrun. injection Hrun as _ <-. reflexivity.
  - left. unfold AddressBook.find, bind, get_data in Hrun.
    destruct (book_objs st !! self) as [data|]; [|discriminate].
    injection Hrun as _ <-. reflexivity.
  - unfold AddressBook.delete, bind, get_data, set_data in Hrun.
    destruct (book_objs st !! self) as [data|] eqn:Hself; [|discriminate].
    destruct (decide (is_Some (data !! n))) as [_|_].
    + simpl in Hrun. rewrite Hself in Hrun. injection Hrun as _ <-. left. reflexivity.
    + injection Hrun as _ <-. right. eauto.
Qed.
End NamesAndOutput.

(** * The theorems at work on John's record *)

#[local] Existing Instance unicode_14.

Example john_store_reachable : exec_all john_calls init = Some john_store.
Proof. vm_compute. reflexivity. Qed.

(** [\d] is not limited to ASCII: ten Arabic-Indic digits make a Phone. *)
Example Phone_accepts_arabic_indic :
  ∃ st', Phone [1633; 1634; 1635; 1636; 1637; 1638; 1639; 1640; 1641; 1632]%N init
         = Some (Return 0, st').
Proof. eexists. vm_compute. reflexivity. Qed.

Lemma edit_phone_invalid_new_witness :
  record_objs john_store !! 0 = Some john
  ∧ values_of (phone_objs john_store) (phones john) = Some john_values
  ∧ lit "5555555555" ∈ john_values
  ∧ ten_digits (lit "12345") = false
  ∧ ∃ st',
      edit_phone 0 (lit "5555555555") (lit "12345") john_store
        = Some (Return false, st')
      ∧ st' = set_stdout (λ out, out ++ [rejected_line]) john_store
      ∧ record_objs st' !! 0 = Some john
      ∧ values_of (phone_objs st') (phones john) = Some john_values.
Proof.
  assert (H1 : record_objs john_store !! 0 = Some john) by reflexivity.
  assert (H2 : values_of (phone_objs john_store) (phones john) = Some john_values)
    by reflexivity.
  assert (H3 : lit "5555555555" ∈ john_values) by (vm_compute; right; left).
  assert (H4 : ten_digits (lit "12345") = false) by reflexivity.
  repeat (split; [assumption|]).
  exact (edit_phone_invalid_new john_store 0 john john_values
           (lit "5555555555") (lit "12345") H1 H2 H3 H4).
Defined.

Lemma add_phone_invalid_witness :
  Forall (λ c, ten_digits c = false) [lit "12345"; lit "12345678901"; lit "12345abcde"]
  ∧ (∀ c, c ∈ [lit "12345"; lit "12345678901"; lit "12345abcde"] →
       add_phone 0 c john_store =
         Some (Return tt, set_stdout (λ out, out ++ [rejected_line]) john_store))
  ∧ ∃ st',
      add_phones 0 [lit "12345"; lit "12345678901"; lit "12345abcde"] john_store
        = Some (Return tt, st')
      ∧ phone_objs st' = phone_objs john_store
      ∧ record_objs st' = record_objs john_store
      ∧ book_objs st' = book_objs john_store
      ∧ stdout st' = stdout john_store
          ++ ((λ _, rejected_line) <$>
                [lit "12345"; lit "12345678901"; lit "12345abcde"]).
Proof.
  assert (H : Forall (λ c, ten_digits c = false)
                [lit "12345"; lit "12345678901"; lit "12345abcde"])
    by (repeat constructor).
  split; [exact H|].
  exact (add_phone_invalid john_store 0 _ H).
Defined.

Lemma edit_phone_spec_witness :
  record_objs john_store !! 0 = Some john
  ∧ values_of (phone_objs john_store) (phones john) = Some john_values
  ∧ NoDup (phones john)
  ∧ ten_digits (lit "1112223333") = true
  ∧ lit "1234567890" ∈ john_values
  ∧ ∃ i st',
      john_values !! i = Some (lit "1234567890")
      ∧ (∀ j, j < i → john_values !! j ≠ Some (lit "1234567890"))
      ∧ edit_phone 0 (lit "1234567890") (lit "1112223333") john_store
          = Some (Return true, st')
      ∧ record_objs st' = record_objs john_store
      ∧ values_of (phone_objs st') (phones john)
          = Some (<[i := lit "1112223333"]> john_values)
      ∧ book_objs st' = book_objs john_store
      ∧ stdout st' = stdout john_store.
Proof.
  assert (H1 : record_objs john_store !! 0 = Some john) by reflexivity.
  assert (H2 : values_of (phone_objs john_store) (phones john) = Some john_values)
    by reflexivity.
  assert (H3 : NoDup (phones john)) by (apply (bool_decide_unpack _); vm_compute; exact I).
  assert (H4 : ten_digits (lit "1112223333") = true) by reflexivity.
  assert (H5 : lit "1234567890" ∈ john_values) by (vm_compute; left).
  repeat (split; [assumption|]).
  exact (proj1 (edit_phone_spec john_store 0 john john_values
                  (lit "1234567890") (lit "1112223333") H1 H2) H3 H4 H5).
Defined.

Lemma Record_str_spec_witness :
  record_objs john_store !! 0 = Some john
  ∧ values_of (phone_objs john_store) (phones john) = Some john_values
  ∧ Record_str 0 john_store =
      Some (Return (lit "Contact name: John, phones: 1234567890; 5555555555"),
            john_store).
Proof.
  assert (H1 : record_objs john_store !! 0 = Some john) by reflexivity.
  assert (H2 : values_of (phone_objs john_store) (phones john) = Some john_values)
    by reflexivity.
  repeat (split; [assumption|]).
  exact (proj1 (Record_str_spec john_store 0 john john_values H1 H2)).
Defined.

Lemma add_record_then_find_witness :
  book_objs john_store !! 0 = Some {[lit "John" := 0]}
  ∧ record_objs john_store !! 0 = Some john
  ∧ values_of (phone_objs john_store) (phones john) = Some john_values
  ∧ AddressBook.add_record 0 0 john_store = Some (Return tt, john_store)
  ∧ AddressBook.find 0 (lit "John") john_store = Some (Return (Some 0), john_store).
Proof.
  assert (H0 : book_objs john_store !! 0 = Some {[lit "John" := 0]}) by reflexivity.
  assert (H1 : record_objs john_store !! 0 = Some john) by reflexivity.
  assert (H2 : values_of (phone_objs john_store) (phones john) = Some john_values)
    by reflexivity.
  repeat (split; [assumption|]).
  destruct (add_record_then_find john_store 0 0 _ john john_values H0 H1 H2)
    as (Hadd & _ & _ & _ & _ & Hfind & _).
  split; [exact Hadd | exact Hfind].
Defined.

Lemma delete_spec_witness :
  book_objs john_store !! 0 = Some {[lit "John" := 0]}
  ∧ ({[lit "John" := 0]} : gmap str loc) !! lit "Jane" = None
  ∧ ∃ st',
      AddressBook.delete 0 (lit "Jane") john_store = Some (Return tt, st')
      ∧ st' = set_stdout (λ out, out ++ [lit "Record not found"]) john_store
      ∧ book_objs st' !! 0 = Some {[lit "John" := 0]}.
Proof.
  assert (H0 : book_objs john_store !! 0 = Some {[lit "John" := 0]}) by reflexivity.
  assert (H1 : ({[lit "John" := 0]} : gmap str loc) !! lit "Jane" = None)
    by reflexivity.
  repeat (split; [assumption|]).
  exact (proj1 (delete_spec john_store 0 _ (lit "Jane") H0) H1).
Defined.

(** The stored Phone instance 0 exists before the call, holding
    "1234567890" ([find_phone] returns it); after [edit_phone] the record
    still lists instances 0 and 1, and instance 0 holds "1112223333": the
    stored object was assigned to, not replaced.  The instance built to
    validate the new value is instance 2, which no record lists. *)
Lemma edit_phone_overwrites_stored_Phone :
  exec_all john_calls init = Some john_store
  ∧ find_phone 0 (lit "1234567890") john_store = Some (Return (Some 0), john_store)
  ∧ phone_objs john_store !! 0 = Some (mkField (lit "1234567890"))
  ∧ edit_phone 0 (lit "1234567890") (lit "1112223333") john_store
      = Some (Return true, john_edited)
  ∧ phone_objs john_edited !! 0 = Some (mkField (lit "1112223333"))
  ∧ (phones <$> record_objs john_edited !! 0) = Some [0; 1]
  ∧ phone_objs john_edited !! 0 ≠ phone_objs john_store !! 0.
Proof.
  repeat split; try (vm_compute; reflexivity). vm_compute. discriminate.
Qed.

Lemma reachable_phones_valid_witness :
  reachable john_store
  ∧ record_objs john_store !! 0 = Some john
  ∧ 1 ∈ phones john
  ∧ ∃ v, phone_objs john_store !! 1 = Some (mkField v)
         ∧ length v = 10 ∧ Forall (λ c, category_Nd c = true) v.
Proof.
  assert (H0 : reachable john_store) by (exists john_calls; vm_compute; reflexivity).
  assert (H1 : record_objs john_store !! 0 = Some john) by reflexivity.
  assert (H2 : 1 ∈ phones john) by (vm_compute; right; left).
  repeat (split; [assumption|]).
  exact (reachable_phones_valid john_store 0 john 1 H0 H1 H2).
Defined.

Lemma reachable_keys_named_witness :
  reachable john_store
  ∧ book_objs john_store !! 0 = Some {[lit "John" := 0]}
  ∧ ({[lit "John" := 0]} : gmap str loc) !! lit "John" = Some 0
  ∧ ∃ o, record_objs john_store !! 0 = Some o ∧ value (name o) = lit "John".
Proof.
  assert (H0 : reachable john_store) by (exists john_calls; vm_compute; reflexivity).
  assert (H1 : book_objs john_store !! 0 = Some {[lit "John" := 0]}) by reflexivity.
  assert (H2 : ({[lit "John" := 0]} : gmap str loc) !! lit "John" = Some 0)
    by reflexivity.
  repeat (split; [assumption|]).
  exact (reachable_keys_named john_store 0 _ (lit "John") 0 H0 H1 H2).
Defined.

(** * The further theorems at work on John's and Jane's records *)

Example contacts_store_reachable :
  exec_all (john_calls ++ jane_calls) init = Some contacts_store.
Proof. vm_compute. reflexivity. Qed.

Lemma add_phone_valid_witness :
  record_objs john_store !! 0 = Some john
  ∧ values_of (phone_objs john_store) (phones john) = Some john_values
  ∧ ten_digits (lit "5555555555") = true
  ∧ ∃ p st',
      add_phone 0 (lit "5555555555") john_store = Some (Return tt, st')
      ∧ phone_objs john_store !! p = None
      ∧ values_of (phone_objs st') (phones john ++ [p])
          = Some (john_values ++ [lit "5555555555"]).
Proof.
  assert (H1 : record_objs john_store !! 0 = Some john) by reflexivity.
  assert (H2 : values_of (phone_objs john_store) (phones john) = Some john_values)
    by reflexivity.
  assert (H3 : ten_digits (lit "5555555555") = true) by reflexivity.
  repeat (split; [assumption|]).
  destruct (add_phone_valid john_store 0 john john_values (lit "5555555555")
              H1 H2 H3) as (p & st' & Hrun & Hnew & _ & Hvs & _).
  exists p, st'. auto.
Defined.

Lemma remove_phone_present_witness :
  record_objs john_store !! 0 = Some john
  ∧ values_of (phone_objs john_store) (phones john) = Some john_values
  ∧ lit "5555555555" ∈ john_values
  ∧ ∃ i st',
      john_values !! i = Some (lit "5555555555")
      ∧ remove_phone 0 (lit "5555555555") john_store = Some (Return true, st')
      ∧ values_of (phone_objs st') (delete i (phones john))
          = Some (delete i john_values).
Proof.
  assert (H1 : record_objs john_store !! 0 = Some john) by reflexivity.
  assert (H2 : values_of (phone_objs john_store) (phones john) = Some john_values)
    by reflexivity.
  assert (H3 : lit "5555555555" ∈ john_values) by (vm_compute; right; left).
  repeat (split; [assumption|]).
  destruct (remove_phone_present john_store 0 john john_values (lit "5555555555")
              H1 H2 H3) as (i & st' & Hi & _ & Hrun & _ & Hvs & _).
  exists i, st'. auto.
Defined.

Lemma remove_phone_absent_witness :
  record_objs john_store !! 0 = Some john
  ∧ values_of (phone_objs john_store) (phones john) = Some john_values
  ∧ (lit "0000000000" ∉ john_values)
  ∧ remove_phone 0 (lit "0000000000") john_store =
      Some (Return false,
            set_stdout (λ out, out ++ [lit "Phone not found"]) john_store).
Proof.
  assert (H1 : record_objs john_store !! 0 = Some john) by reflexivity.
  assert (H2 : values_of (phone_objs john_store) (phones john) = Some john_values)
    by reflexivity.
  assert (H3 : lit "0000000000" ∉ john_values)
    by (apply (bool_decide_unpack _); vm_compute; exact I).
  repeat (split; [assumption|]).
  exact (remove_phone_absent john_store 0 john john_values (lit "0000000000")
           H1 H2 H3).
Defined.

Lemma find_phone_spec_witness :
  record_objs john_store !! 0 = Some john
  ∧ values_of (phone_objs john_store) (phones john) = Some john_values
  ∧ lit "5555555555" ∈ john_values
  ∧ ∃ i p,
      john_values !! i = Some (lit "5555555555")
      ∧ phones john !! i = Some p
      ∧ find_phone 0 (lit "5555555555") john_store
          = Some (Return (Some p), john_store).
Proof.
  assert (H1 : record_objs john_store !! 0 = Some john) by reflexivity.
  assert (H2 : values_of (phone_objs john_store) (phones john) = Some john_values)
    by reflexivity.
  assert (H3 : lit "5555555555" ∈ john_values) by (vm_compute; right; left).
  repeat (split; [assumption|]).
  destruct (proj1 (find_phone_spec john_store 0 john john_values
                     (lit "5555555555") H1 H2) H3)
    as (i & p & Hi & _ & Hp & _ & Hrun).
  exists i, p. auto.
Defined.

Lemma add_phone_then_remove_phone_witness :
  record_objs john_store !! 0 = Some john
  ∧ values_of (phone_objs john_store) (phones john) = Some john_values
  ∧ ten_digits (lit "1112223333") = true
  ∧ (lit "1112223333" ∉ john_values)
  ∧ ∃ st1 st2,
      add_phone 0 (lit "1112223333") john_store = Some (Return tt, st1)
      ∧ remove_phone 0 (lit "1112223333") st1 = Some (Return true, st2)
      ∧ record_objs st2 = record_objs john_store.
Proof.
  assert (H1 : record_objs john_store !! 0 = Some john) by reflexivity.
  assert (H2 : values_of (phone_objs john_store) (phones john) = Some john_values)
    by reflexivity.
  assert (H3 : ten_digits (lit "1112223333") = true) by reflexivity.
  assert (H4 : lit "1112223333" ∉ john_values)
    by (apply (bool_decide_unpack _); vm_compute; exact I).
  repeat (split; [assumption|]).
  destruct (add_phone_then_remove_phone john_store 0 john john_values
              (lit "1112223333") H1 H2 H3 H4)
    as (st1 & st2 & Hadd & Hrem & Hrec & _).
  exists st1, st2. auto.
Defined.

Lemma add_phone_then_find_phone_witness :
  record_objs john_store !! 0 = Some john
  ∧ values_of (phone_objs john_store) (phones john) = Some john_values
  ∧ ten_digits (lit "1112223333") = true
  ∧ ∃ st1 q,
      add_phone 0 (lit "1112223333") john_store = Some (Return tt, st1)
      ∧ find_phone 0 (lit "1112223333") st1 = Some (Return (Some q), st1)
      ∧ phone_objs st1 !! q = Some (mkField (lit "1112223333")).
Proof.
  assert (H1 : record_objs john_store !! 0 = Some john) by reflexivity.
  assert (H2 : values_of (phone_objs john_store) (phones john) = Some john_values)
    by reflexivity.
  assert (H3 : ten_digits (lit "1112223333") = true) by reflexivity.
  repeat (split; [assumption|]).
  destruct (add_phone_then_find_phone john_store 0 john john_values
              (lit "1112223333") H1 H2 H3)
    as (st1 & o1 & q & Hadd & Hfind & _ & _ & Hval).
  exists st1, q. auto.
Defined.

Lemma only_constructors_raise_witness :
  exec_raised (CallRecord []) john_store
    = Some (ValueError (lit "Name can't be empty"))
  ∧ ((CallRecord [] = CallRecord []
      ∧ ValueError (lit "Name can't be empty") = ValueError (lit "Name can't be empty"))
     ∨ ∃ s, CallRecord [] = CallPhone s ∧ ten_digits s = false
            ∧ ValueError (lit "Name can't be empty")
              = ValueError (lit "The phone should contain 10 digits")).
Proof.
  assert (H : exec_raised (CallRecord []) john_store
              = Some (ValueError (lit "Name can't be empty"))) by reflexivity.
  split; [exact H|].
  exact (only_constructors_raise (CallRecord []) john_store _ H).
Defined.

Lemma calls_keep_to_their_class_witness :
  exec (CallDelete 0 (lit "John")) john_store
    = Some (mkState (phone_objs john_store) (record_objs john_store) [∅] [])
  ∧ phone_objs (mkState (phone_objs john_store) (record_objs john_store) [∅] [])
    = phone_objs john_store.
Proof.
  assert (H : exec (CallDelete 0 (lit "John")) john_store
              = Some (mkState (phone_objs john_store) (record_objs john_store) [∅] []))
    by (vm_compute; reflexivity).
  split; [exact H|].
  exact (proj1 (proj1 (calls_keep_to_their_class _ _ _ H) eq_refl)).
Defined.

Lemma record_name_never_changes_witness :
  exec (CallRemovePhone 0 (lit "1234567890")) john_store
    = Some (mkState (phone_objs john_store) [mkRecord (mkField (lit "John")) [1]]
                    (book_objs john_store) [])
  ∧ record_objs john_store !! 0 = Some john
  ∧ ∃ o', [mkRecord (mkField (lit "John")) [1]] !! 0 = Some o'
          ∧ name o' = name john.
Proof.
  assert (H : exec (CallRemovePhone 0 (lit "1234567890")) john_store
              = Some (mkState (phone_objs john_store)
                              [mkRecord (mkField (lit "John")) [1]]
                              (book_objs john_store) []))
    by (vm_compute; reflexivity).
  assert (H1 : record_objs john_store !! 0 = Some john) by reflexivity.
  repeat (split; [assumption|]).
  exact (record_name_never_changes _ _ _ 0 john H H1).
Defined.

Lemma reachable_exclusive_witness :
  reachable contacts_store
  ∧ 0 ≠ 1
  ∧ record_objs contacts_store !! 0 = Some john
  ∧ record_objs contacts_store !! 1 = Some jane
  ∧ 1 ∈ phones john
  ∧ 1 ∉ phones jane.
Proof.
  assert (H0 : reachable contacts_store)
    by (exists (john_calls ++ jane_calls); vm_compute; reflexivity).
  assert (Hne : 0 ≠ 1) by lia.
  assert (H1 : record_objs contacts_store !! 0 = Some john) by reflexivity.
  assert (H2 : record_objs contacts_store !! 1 = Some jane) by reflexivity.
  assert (H3 : 1 ∈ phones john) by (vm_compute; right; left).
  repeat (split; [assumption|]).
  exact (reachable_exclusive contacts_store 0 1 john jane 1 H0 Hne H1 H2 H3).
Defined.

Lemma other_records_untouched_witness :
  reachable contacts_store
  ∧ 0 ≠ 1
  ∧ record_objs contacts_store !! 1 = Some jane
  ∧ values_of (phone_objs contacts_store) (phones jane) = Some [lit "9876543210"]
  ∧ ∀ st',
      edit_phone 0 (lit "1234567890") (lit "9876543210") contacts_store
        = Some (Return true, st') →
      record_objs st' !! 1 = Some jane
      ∧ values_of (phone_objs st') (phones jane) = Some [lit "9876543210"].
Proof.
  assert (H0 : reachable contacts_store)
    by (exists (john_calls ++ jane_calls); vm_compute; reflexivity).
  assert (Hne : 0 ≠ 1) by lia.
  assert (H1 : record_objs contacts_store !! 1 = Some jane) by reflexivity.
  assert (H2 : values_of (phone_objs contacts_store) (phones jane)
               = Some [lit "9876543210"]) by reflexivity.
  repeat (split; [assumption|]).
  intros st' Hrun.
  apply (other_records_untouched contacts_store 0 1 jane _ H0 Hne H1 H2 st').
  right. right. eauto.
Defined.

Lemma delete_then_find_witness :
  book_objs john_store !! 0 = Some {[lit "John" := 0]}
  ∧ ∃ st1,
      AddressBook.delete 0 (lit "John") john_store = Some (Return tt, st1)
      ∧ AddressBook.find 0 (lit "John") st1 = Some (Return None, st1).
Proof.
  assert (H0 : book_objs john_store !! 0 = Some {[lit "John" := 0]}) by reflexivity.
  split; [exact H0|].
  exact (delete_then_find john_store 0 _ (lit "John") H0).
Defined.

Lemma book_sees_later_phones_witness :
  book_objs john_store !! 0 = Some {[lit "John" := 0]}
  ∧ record_objs john_store !! 0 = Some john
  ∧ values_of (phone_objs john_store) (phones john) = Some john_values
  ∧ ten_digits (lit "1112223333") = true
  ∧ ∃ st1 st2,
      AddressBook.add_record 0 0 john_store = Some (Return tt, st1)
      ∧ add_phone 0 (lit "1112223333") st1 = Some (Return tt, st2)
      ∧ AddressBook.find 0 (lit "John") st2 = Some (Return (Some 0), st2)
      ∧ Record_str 0 st2 =
          Some (Return
                  (lit "Contact name: John, phones: 1234567890; 5555555555; 1112223333"),
                st2).
Proof.
  assert (H0 : book_objs john_store !! 0 = Some {[lit "John" := 0]}) by reflexivity.
  assert (H1 : record_objs john_store !! 0 = Some john) by reflexivity.
  assert (H2 : values_of (phone_objs john_store) (phones john) = Some john_values)
    by reflexivity.
  assert (H3 : ten_digits (lit "1112223333") = true) by reflexivity.
  repeat (split; [assumption|]).
  exact (book_sees_later_phones john_store 0 0 _ john john_values
           (lit "1112223333") H0 H1 H2 H3).
Defined.

Lemma ordered_book_agrees_witness :
  NoDup contacts_items.*1
  ∧ book_objs contacts_store !! 0 = Some (dict_map contacts_items)
  ∧ ∃ data' st1,
      OrderedBook.delete contacts_items (lit "John") contacts_store
        = Some (Return data', st1)
      ∧ AddressBook.delete 0 (lit "John") contacts_store =
          Some (Return tt, set_book_objs (λ h, <[0 := dict_map data']> h) st1)
      ∧ NoDup data'.*1.
Proof.
  assert (H0 : NoDup contacts_items.*1)
    by (apply (bool_decide_unpack _); vm_compute; exact I).
  assert (H1 : book_objs contacts_store !! 0 = Some (dict_map contacts_items))
    by (vm_compute; reflexivity).
  repeat (split; [assumption|]).
  exact (proj2 (proj2 (ordered_book_agrees contacts_store 0 contacts_items
                         (lit "John") H0 H1))).
Defined.

Lemma AddressBook_str_spec_witness :
  Forall2 (λ kv line, Record_str kv.2 contacts_store
                      = Some (Return line, contacts_store))
    contacts_items
    [lit "Contact name: John, phones: 1234567890; 5555555555";
     lit "Contact name: Jane, phones: 9876543210"]
  ∧ OrderedBook.str_ contacts_items contacts_store =
      Some (Return
              (lit "Contact name: John, phones: 1234567890; 5555555555"
               ++ newline ++ lit "Contact name: Jane, phones: 9876543210"),
            contacts_store).
Proof.
  assert (H : Forall2 (λ kv line, Record_str kv.2 contacts_store
                                  = Some (Return line, contacts_store))
                contacts_items
                [lit "Contact name: John, phones: 1234567890; 5555555555";
                 lit "Contact name: Jane, phones: 9876543210"])
    by (repeat constructor).
  split; [exact H|].
  exact (proj1 (AddressBook_str_spec contacts_items _ contacts_store H)).
Defined.

Lemma book_text_order_witness :
  NoDup contacts_items.*1
  ∧ Forall2 (λ kv line, Record_str kv.2 contacts_store
                        = Some (Return line, contacts_store))
      contacts_items
      [lit "Contact name: John, phones: 1234567890; 5555555555";
       lit "Contact name: Jane, phones: 9876543210"]
  ∧ ∃ data',
      OrderedBook.delete contacts_items (lit "John") contacts_store
        = Some (Return data', contacts_store)
      ∧ OrderedBook.str_ data' contacts_store =
          Some (Return (lit "Contact name: Jane, phones: 9876543210"),
                contacts_store).
Proof.
  assert (H0 : NoDup contacts_items.*1)
    by (apply (bool_decide_unpack _); vm_compute; exact I).
  assert (H : Forall2 (λ kv line, Record_str kv.2 contacts_store
                                  = Some (Return line, contacts_store))
                contacts_items
                [lit "Contact name: John, phones: 1234567890; 5555555555";
                 lit "Contact name: Jane, phones: 9876543210"])
    by (repeat constructor).
  repeat (split; [assumption|]).
  exact (proj2 (book_text_order contacts_items _ contacts_store H0 H)
           (lit "John") 0 0 eq_refl).
Defined.

Lemma reachable_names_nonempty_witness :
  reachable contacts_store
  ∧ (∀ r o, record_objs contacts_store !! r = Some o → value (name o) ≠ [])
  ∧ (∀ b data, book_objs contacts_store !! b = Some data →
       data !! ([] : str) = None).
Proof.
  assert (H0 : reachable contacts_store)
    by (exists (john_calls ++ jane_calls); vm_compute; reflexivity).
  split; [exact H0|].
  exact (reachable_names_nonempty contacts_store H0).
Defined.

Lemma calls_print_at_most_one_line_witness :
  exec (CallFindPhone 0 (lit "0000000000")) john_store
    = Some (set_stdout (λ out, out ++ [lit "Phone not found"]) john_store)
  ∧ (stdout (set_stdout (λ out, out ++ [lit "Phone not found"]) john_store)
       = stdout john_store
     ∨ ∃ line, line ∈ messages
         ∧ stdout (set_stdout (λ out, out ++ [lit "Phone not found"]) john_store)
           = stdout john_store ++ [line]).
Proof.
  assert (H : exec (CallFindPhone 0 (lit "0000000000")) john_store
              = Some (set_stdout (λ out, out ++ [lit "Phone not found"]) john_store))
    by (vm_compute; reflexivity).
  split; [exact H|].
  exact (calls_print_at_most_one_line _ _ _ H).
Defined.
